(** * Vantage points: disks in an arena, each looking at a focus

    A shallow embedding of the two search scripts of the repository,
    [n-points-line-random.py] (constructive search, half-plane arena) and
    [n-points-trials.py] (force relaxation, origin-disk arena), and the
    properties of their geometric core.

    Numbers.  The scripts compute with Python integers and floats.  The
    embedding idealises both as real numbers: [+], [-], [*] and [**2] are the
    field operations, [math.sqrt] is [sqrt], and a division whose divisor is
    zero raises [ZeroDivisionError] as it does in Python.  Integer-only
    quantities ([range] bounds, [//] on integers) stay in [Z].

    Errors.  A Python exception is a [Raise] in the [result] monad; the
    loops stop at the first one, in the order the interpreter would meet it. *)

From Stdlib Require Import ZArith Reals Machin Lra Lia List.
From stdpp Require Import base option list.
Import ListNotations.

#[local] Open Scope R_scope.

(** ** Exceptions and the result monad *)

Inductive exn : Set :=
  | ZeroDivisionError
  | IndexError
  | ValueError.

Inductive result (A : Type) : Type :=
  | Ok (a : A)
  | Raise (e : exn).

Arguments Ok {A} a.
Arguments Raise {A} e.

#[global] Instance result_ret : MRet result := fun A a => Ok a.

#[global] Instance result_bind : MBind result :=
  fun A B f m => match m with Ok a => f a | Raise e => Raise e end.

(** ** Decidable comparisons on the reals *)

#[global] Instance R_eq_dec : EqDecision R := Req_dec_T.
#[global] Instance Rlt_rel_dec : RelDecision Rlt := Rlt_dec.

(** [a / b] of Python: raises when the divisor is zero. *)
Definition pdiv (a b : R) : result R :=
  if decide (b = 0) then Raise ZeroDivisionError else Ok (a / b).

(** [a ** (-1)] of Python: raises when the base is zero. *)
Definition pinv (a : R) : result R :=
  if decide (a = 0) then Raise ZeroDivisionError else Ok (/ a).

(** [l[i]] of Python for a non-negative index. *)
Definition pindex {A} (l : list A) (i : nat) : result A :=
  match l !! i with
  | Some a => Ok a
  | None => Raise IndexError
  end.

(** ** Points

    A point is the 4-tuple [(x, y, focus_x, focus_y)]; [p[0]] .. [p[3]] of
    the scripts are [px], [py], [fx], [fy]. *)

Record Point : Type := mkPoint { px : R; py : R; fx : R; fy : R }.

#[global] Instance Point_eq_dec : EqDecision Point.
Proof. solve_decision. Defined.

(** Squared distance between the centres of two points. *)
Definition sqdist (p1 p2 : Point) : R :=
  (px p1 - px p2) ^ 2 + (py p1 - py p2) ^ 2.

(** Squared distance between a point and its focus. *)
Definition sqfocus (p : Point) : R :=
  (px p - fx p) ^ 2 + (py p - fy p) ^ 2.

(** ** Geometry shared by the two scripts *)

(** [closest_distance_to_line(m, b, x, y)]. *)
Definition closest_distance_to_line (m b x y : R) : result R :=
  xm ← pdiv x m;
  im ← pdiv 1 m;
  linex ← pdiv (- b + y + xm) (m + im);
  let liney := m * linex + b in
  Ok (sqrt ((x - linex) ^ 2 + (y - liney) ^ 2)).

(** The pairs [(i, j)] with [i < j] of the nested index loops, as the head
    of the list against every later element. *)
Fixpoint any_pair {A} (test : A -> A -> bool) (points : list A) : bool :=
  match points with
  | [] => false
  | p1 :: rest => existsb (test p1) rest || any_pair test rest
  end.

(** [self_intersect(points, radius)]. *)
Definition overlap (radius : R) (p1 p2 : Point) : bool :=
  bool_decide (sqdist p1 p2 < 4 * radius ^ 2).

Definition self_intersect (points : list Point) (radius : R) : bool :=
  any_pair (overlap radius) points.

(** The coincidence scan that opens both validators. *)
Definition coincide (p1 p2 : Point) : bool :=
  bool_decide (px p1 = px p2) && bool_decide (py p1 = py p2).

Definition degenerate (points : list Point) : bool :=
  any_pair coincide points.

(** [for p in l: if test(p): return True] followed by [return False], for a
    test that may raise. *)
Fixpoint any_raising {A} (test : A -> result bool) (l : list A) : result bool :=
  match l with
  | [] => Ok false
  | p :: rest =>
      t ← test p;
      if (t : bool) then Ok true else any_raising test rest
  end.

(** ** The injected random source

    Both scripts draw from Python's [random] module.  [randint rs k a b] is
    the [k]-th draw of [random.randint(a, b)] and [random rs k] the [k]-th
    draw of [random.random()]. *)

Record RandomSource : Type := {
  randint : nat -> Z -> Z -> Z;
  random : nat -> R
}.

(** What the [random] module guarantees of its draws. *)
Record source_ok (rs : RandomSource) : Prop := {
  randint_range :
    forall k a b, (a <= b)%Z -> (a <= randint rs k a b <= b)%Z;
  random_range : forall k, 0 <= random rs k < 1
}.

(** [random.randint(a, b)] raises [ValueError] on an empty range. *)
Definition prandint (rs : RandomSource) (k : nat) (a b : Z) : result Z :=
  if decide (a <= b)%Z then Ok (randint rs k a b) else Raise ValueError.

(** ** The constructive search: [n-points-line-random.py] *)

Module LineRandom.

(** [intersect_origin_line(points, radius)]. *)
Definition intersect_origin_line (points : list Point) (radius : R) : bool :=
  existsb (fun p => bool_decide (py p < radius)) points.

(** [in_violation(points, radius, arena_size)]; [arena_size] is unused by
    the script as well. *)
Definition in_violation (points : list Point) (radius : R) (arena_size : Z)
  : bool :=
  if degenerate points then true
  else if self_intersect points radius then true
  else if intersect_origin_line points radius then true
  else false.

(** [is_blocked(p1, points, radius)], half-plane policy. *)
Definition blocks (m b : R) (p1 : Point) (radius : R) (p2 : Point)
  : result bool :=
  if bool_decide (p2 = p1) then Ok false
  else if bool_decide (py p1 < py p2) then Ok false
  else
    d ← closest_distance_to_line m b (px p2) (py p2);
    Ok (bool_decide (d < radius)).

Definition is_blocked (p1 : Point) (points : list Point) (radius : R)
  : result bool :=
  m ← pdiv (py p1 - fy p1 + 0.01) (px p1 - fx p1 + 0.01);
  let b := py p1 - m * px p1 in
  any_raising (blocks m b p1 radius) points.

Section AssignFoci.
Variables (radius : R) (arena_size : Z) (max_x min_x : R).

(** The body of [for side in [1, -1]] at offset [d] for point [i]: the
    flag is [can_adjust], the list is [new_points] as the loop leaves
    it. *)
Fixpoint scan_sides (i : nat) (d : Z) (sides : list Z)
    (new_points : list Point) : result (bool * list Point) :=
  match sides with
  | [] => Ok (false, new_points)
  | side :: rest =>
      q ← pindex new_points i;
      let x := px q + IZR (side * d) in
      if bool_decide (max_x < x) || bool_decide (x < min_x)
      then scan_sides i d rest new_points
      else
        let new_p := mkPoint (px q) (py q) x 0 in
        let new_points' := <[i := new_p]> new_points in
        blocked ← is_blocked new_p new_points' radius;
        if negb blocked then Ok (true, new_points')
        else scan_sides i d rest new_points'
  end.

(** [for d in range(arena_size)], leaving at the first accepted
    candidate. *)
Fixpoint scan_offsets (i : nat) (ds : list Z) (new_points : list Point)
  : result (bool * list Point) :=
  match ds with
  | [] => Ok (false, new_points)
  | d :: rest =>
      '(can_adjust, new_points') ← scan_sides i d [1; -1]%Z new_points;
      if (can_adjust : bool) then Ok (true, new_points')
      else scan_offsets i rest new_points'
  end.

Definition scan_point (i : nat) (new_points : list Point)
  : result (bool * list Point) :=
  scan_offsets i (seqZ 0 arena_size) new_points.

(** [for i, p in enumerate(points)]: [todo] is what is left of the
    enumeration, [points] the argument of [assign_foci], returned
    as it is on failure. *)
Fixpoint assign_loop (points : list Point) (i : nat) (todo : list Point)
    (new_points : list Point) : result (bool * list Point) :=
  match todo with
  | [] => Ok (true, new_points)
  | _ :: todo' =>
      '(can_adjust, new_points') ← scan_point i new_points;
      if (can_adjust : bool)
      then assign_loop points (S i) todo' new_points'
      else Ok (false, points)
  end.

(** [assign_foci(points, radius, arena_size, max_x, min_x)]. *)
Definition assign_foci (points : list Point) : result (bool * list Point) :=
  assign_loop points 0 points points.

End AssignFoci.

(** *** The angled-stack layout *)

(** [a // b] on integers. *)
Definition pfloordiv (a b : Z) : result Z :=
  if decide (b = 0%Z) then Raise ZeroDivisionError else Ok (a / b)%Z.

Definition num_stacks_of (arena_size radius : Z) : result Z :=
  pfloordiv (arena_size - 3 * radius) radius.

Definition num_per_stack_of (num_points num_stacks : Z) : result Z :=
  pfloordiv num_points num_stacks.

(** One pass of [for n in range(num_stacks)]: the points of a row. *)
Definition angled_row (arena_size radius num_stacks x_per_stack : Z)
    (curr_x curr_y : R) : list Point :=
  map (fun n : Z =>
         let x_shift := (- arena_size + radius + n * x_per_stack)%Z in
         mkPoint (curr_x + IZR x_shift) curr_y
                 (IZR (x_shift + x_per_stack - radius + 5)) 0)
      (seqZ 0 num_stacks).

(** [for i in range(num_per_stack)], with [rows] rows still to lay and
    [k] draws of [random.random()] already made. *)
Fixpoint angled_rows (rs : RandomSource)
    (arena_size radius num_stacks x_per_stack : Z)
    (rows k : nat) (angle curr_x curr_y : R) : list Point :=
  match rows with
  | O => []
  | S rows' =>
      let row := angled_row arena_size radius num_stacks x_per_stack
                            curr_x curr_y in
      let angle' := angle + random rs k * (3.14159 / 2 - angle) in
      let curr_x' := curr_x + 2 * IZR radius * sin angle' in
      let curr_y' := curr_y + 2 * IZR radius * cos angle' in
      row ++ angled_rows rs arena_size radius num_stacks x_per_stack
                         rows' (S k) angle' curr_x' curr_y'
  end.

(** [angled_init(num_points, arena_size, radius)]. *)
Definition angled_init (rs : RandomSource) (num_points arena_size radius : Z)
  : result (list Point) :=
  num_stacks ← num_stacks_of arena_size radius;
  num_per_stack ← num_per_stack_of num_points num_stacks;
  x_per_stack ← prandint rs 0 (2 * radius) (num_per_stack * radius);
  Ok (angled_rows rs arena_size radius num_stacks x_per_stack
                  (Z.to_nat num_per_stack) 0 0 0 (IZR radius)).

(** *** The other layouts *)

(** [random_init(num_points, arena_size, radius)]: three draws per point,
    the first being the [k]-th of the source. *)
Fixpoint random_init_from (rs : RandomSource) (k : nat) (count : nat)
    (arena_size radius y_max : Z) : result (list Point) :=
  match count with
  | O => Ok []
  | S count' =>
      x ← prandint rs k (- arena_size + radius) (arena_size - radius);
      y ← prandint rs (S k) radius y_max;
      f ← prandint rs (S (S k)) (- arena_size) arena_size;
      rest ← random_init_from rs (S (S (S k))) count' arena_size radius y_max;
      Ok (mkPoint (IZR x) (IZR y) (IZR f) 0 :: rest)
  end.

Definition random_init (rs : RandomSource) (k : nat)
    (num_points arena_size radius : Z) : result (list Point) :=
  let y_max := (5 * 2 * radius * num_points)%Z in
  random_init_from rs k (Z.to_nat num_points) arena_size radius y_max.



(** [double_side_init(num_points, arena_size, radius)]: the loop over the
    pairs returns the list with the height and the separation it ends
    with, which the odd point uses. *)
Fixpoint double_side_loop (count : nat) (arena_size radius : Z)
    (points : list Point) (curr_y separation : R)
  : list Point * R * R :=
  match count with
  | O => (points, curr_y, separation)
  | S count' =>
      let curr_y' := curr_y + separation in
      double_side_loop count' arena_size radius
        (points ++ [mkPoint (IZR (- arena_size + radius)) curr_y' 0 0;
                    mkPoint (IZR (arena_size - radius)) curr_y' 0 0])
        curr_y' (separation * 1.1)
  end.

Definition double_side_init (num_points arena_size radius : Z)
  : list Point :=
  let '(points, curr_y, separation) :=
    double_side_loop (Z.to_nat (num_points / 2)) arena_size radius []
                     0 (2.5 * IZR radius) in
  if bool_decide (Z.of_nat (length points) < num_points)%Z
  then points ++ [mkPoint (IZR (- arena_size + radius))
                          (curr_y + separation) 0 0]
  else points.

(** [stacks_init(num_points, arena_size, radius)]: the inner loop lays the
    points of one stack, bottom up. *)
Fixpoint stack_column (count : nat) (radius : Z) (curr_x x_per_stack : R)
    (curr_y separation : R) : list Point :=
  match count with
  | O => []
  | S count' =>
      let curr_y' := curr_y + separation in
      mkPoint curr_x curr_y' (curr_x + x_per_stack - IZR radius + 5) 0
      :: stack_column count' radius curr_x x_per_stack curr_y'
                      (separation * 2)
  end.

Definition stacks_init (num_points arena_size radius : Z)
  : result (list Point) :=
  let orig_separation := 2 * IZR radius in
  num_stacks ← num_stacks_of arena_size radius;
  num_per_stack ← num_per_stack_of num_points num_stacks;
  x_per_stack ← pdiv (2 * IZR arena_size) (IZR num_stacks);
  Ok (concat
        (map (fun n : Z =>
                let curr_x :=
                  IZR (- arena_size + radius) + IZR n * x_per_stack in
                stack_column (Z.to_nat num_per_stack) radius curr_x
                             x_per_stack 0 orig_separation)
             (seqZ 0 num_stacks))).

(** *** The periodicity enforced on a layout *)

(** The position a Python index denotes in a list of length [len]: a
    negative index counts from the end. *)
Definition position (len : nat) (z : Z) : result nat :=
  let z' := if decide (z < 0)%Z then (z + Z.of_nat len)%Z else z in
  if decide (0 <= z' < Z.of_nat len)%Z then Ok (Z.to_nat z')
  else Raise IndexError.

(** [l[z]] for any integer index. *)
Definition pindexZ {A} (l : list A) (z : Z) : result A :=
  i ← position (length l) z;
  pindex l i.

(** [l[z] = v] for any integer index. *)
Definition passignZ {A} (l : list A) (z : Z) (v : A) : result (list A) :=
  i ← position (length l) z;
  Ok (<[i := v]> l).

(** The last point of a row, as the periodicity makes it from the point
    before. *)
Definition shifted (spacing : R) (prev_point : Point) : Point :=
  mkPoint (px prev_point + spacing) (py prev_point)
          (fx prev_point + spacing) (fy prev_point).

(** [for i in range(num_per_stack)] of the periodicity enforcement in
    [dynamics]; [points] is updated in place. *)
Fixpoint periodicity_loop (num_stacks : Z) (spacing : R) (rows : list Z)
    (points : list Point) : result (list Point) :=
  match rows with
  | [] => Ok points
  | i :: rows' =>
      let this_idx := ((i + 1) * num_stacks - 1)%Z in
      prev_point ← pindexZ points (this_idx - 1);
      points' ← passignZ points this_idx (shifted spacing prev_point);
      periodicity_loop num_stacks spacing rows' points'
  end.

Definition enforce_periodicity (num_stacks num_per_stack : Z) (spacing : R)
    (points : list Point) : result (list Point) :=
  periodicity_loop num_stacks spacing (seqZ 0 num_per_stack) points.

(** *** The quality metric of the constructive search *)

(** [sum(distances) / len(distances)]; the length of a list is an integer,
    and the division raises on the empty list. *)
Definition average (l : list R) : result R :=
  pdiv (fold_left Rplus l 0) (INR (length l)).

(** [distances], [avg_distance] and [power] of [dynamics]. *)
Fixpoint distances (radius : R) (points : list Point) : result (list R) :=
  match points with
  | [] => Ok []
  | x :: rest =>
      d ← pdiv (sqrt (sqfocus x)) radius;
      others ← distances radius rest;
      Ok (d :: others)
  end.

Definition power_of (radius max_x min_x : R) (points : list Point)
  : result R :=
  ds ← distances radius points;
  avg_distance ← average ds;
  inverse ← pdiv 1 avg_distance;
  half ← pdiv (max_x - min_x) 2;
  lane ← pdiv half radius;
  Ok (inverse - lane).

End LineRandom.

(** ** The force relaxation: [n-points-trials.py] *)

Module Trials.

(** [intersect_origin(points, radius)]. *)
Definition intersect_origin (points : list Point) (radius : R) : bool :=
  existsb (fun p => bool_decide (px p ^ 2 + py p ^ 2 < radius ^ 2)) points.

(** [is_blocked(p1, points, radius)], radial policy. *)
Definition behind (p1 p2 : Point) : bool :=
  bool_decide (py p1 ^ 2 + px p1 ^ 2 < px p2 ^ 2 + py p2 ^ 2)
  || (bool_decide (px p1 * px p2 < 0) && bool_decide (py p1 * py p2 < 0)).

Definition blocks (m b : R) (p1 : Point) (radius : R) (p2 : Point)
  : result bool :=
  if bool_decide (p2 = p1) then Ok false
  else if behind p1 p2 then Ok false
  else
    d ← closest_distance_to_line m b (px p2) (py p2);
    Ok (bool_decide (d < radius)).

Definition is_blocked (p1 : Point) (points : list Point) (radius : R)
  : result bool :=
  m ← pdiv (py p1 - fy p1 + 0.01) (px p1 - fx p1 + 0.01);
  let b := py p1 - m * px p1 in
  any_raising (blocks m b p1 radius) points.

(** [in_violation_full(points, radius, arena_size)]. *)
Definition in_violation_full (points : list Point) (radius : R)
    (arena_size : Z) : result bool :=
  if degenerate points then Ok true
  else if self_intersect points radius then Ok true
  else if intersect_origin points radius then Ok true
  else any_raising (fun p => is_blocked p points radius) points.

(** The repulsion loop of [sum_forces]: [j] is the index of the head of
    [rest] in [points], [r_force] the running sum. *)
Fixpoint repulsion (repulse repulse_d radius : R) (p_i : Point) (i j : nat)
    (rest : list Point) (r_force : R * R) : result (R * R) :=
  match rest with
  | [] => Ok r_force
  | p :: rest' =>
      if bool_decide (i = j)
      then repulsion repulse repulse_d radius p_i i (S j) rest' r_force
      else
        let distance := sqrt (sqdist p_i p) in
        if bool_decide (Rabs distance < repulse_d * Rabs radius)
        then
          rx ← pdiv (repulse * (px p_i - px p)) radius;
          ry ← pdiv (repulse * (py p_i - py p)) radius;
          repulsion repulse repulse_d radius p_i i (S j) rest'
                    (r_force.1 + rx, r_force.2 + ry)
        else repulsion repulse repulse_d radius p_i i (S j) rest' r_force
  end.

(** [sum_forces(i, points, repulse, repulse_d, radius)]. *)
Definition sum_forces (i : nat) (points : list Point)
    (repulse repulse_d radius : R) : result (R * R) :=
  p_i ← pindex points i;
  let distance_to_focus := sqrt (sqfocus p_i) in
  cx ← pdiv (fx p_i - px p_i) distance_to_focus;
  cy ← pdiv (fy p_i - py p_i) distance_to_focus;
  r_force ← repulsion repulse repulse_d radius p_i i 0 points (0, 0);
  Ok (cx + r_force.1, cy + r_force.2).

(** [random_init_uniform(num_points, arena_size, radius)], the first draw
    being the [k]-th of the source. *)
Fixpoint random_init_uniform_from (rs : RandomSource) (k : nat)
    (count : nat) (arena_size : Z) : result (list Point) :=
  match count with
  | O => Ok []
  | S count' =>
      x ← prandint rs k (- arena_size) arena_size;
      y ← prandint rs (S k) (- arena_size) arena_size;
      rest ← random_init_uniform_from rs (S (S k)) count' arena_size;
      Ok (mkPoint (IZR x) (IZR y) 0 0 :: rest)
  end.

Definition random_init_uniform (rs : RandomSource) (k : nat)
    (num_points arena_size radius : Z) : result (list Point) :=
  random_init_uniform_from rs k (Z.to_nat num_points) arena_size.

(** *** The body of [dynamics] *)

(** The tentative position of point [i] in a step: the force is taken on
    [points], the configuration the step started from. *)
Definition tentative (magnitude repulse repulse_d radius : R)
    (points : list Point) (i : nat) (p : Point) : result Point :=
  '(f_x, f_y) ← sum_forces i points repulse repulse_d radius;
  let norm := sqrt (f_x ^ 2 + f_y ^ 2) in
  p_delta_x ← pdiv (magnitude * f_x) norm;
  p_delta_y ← pdiv (magnitude * f_y) norm;
  Ok (mkPoint (px p + p_delta_x) (py p + p_delta_y) (fx p) (fy p)).

(** [for i, p in enumerate(points)] of a step: [todo] is what is left of the
    enumeration and [new_points] the copy being updated. *)
Fixpoint move_loop (magnitude repulse repulse_d radius : R) (arena_size : Z)
    (points : list Point) (i : nat) (todo : list Point)
    (new_points : list Point) : result (list Point) :=
  match todo with
  | [] => Ok new_points
  | p :: todo' =>
      moved ← tentative magnitude repulse repulse_d radius points i p;
      let new_points1 := <[i := moved]> new_points in
      violation ← in_violation_full new_points1 radius arena_size;
      let new_points2 :=
        if (violation : bool) then <[i := p]> new_points1 else new_points1 in
      move_loop magnitude repulse repulse_d radius arena_size points
                (S i) todo' new_points2
  end.

(** The moves of one step, from [new_points = points.copy()] to
    [points = new_points.copy()]. *)
Definition move_all (magnitude repulse repulse_d radius : R) (arena_size : Z)
    (points : list Point) : result (list Point) :=
  move_loop magnitude repulse repulse_d radius arena_size points 0
            points points.

(** The quality metric [power] of a configuration. *)
Fixpoint inv_sq_distances (radius : R) (points : list Point)
  : result (list R) :=
  match points with
  | [] => Ok []
  | x :: rest =>
      inv ← pinv (sqfocus x);
      others ← inv_sq_distances radius rest;
      Ok (radius * radius * inv :: others)
  end.

(** [sum(l)]: the running total starts at 0 and takes the items in order. *)
Definition psum (l : list R) : R := fold_left Rplus l 0.

Definition power_of (radius : R) (points : list Point) : result R :=
  l ← inv_sq_distances radius points;
  Ok (psum l).

(** [x // 1000] on floats: the divisor is a non-zero literal, so nothing is
    raised. *)
Definition floordiv_1000 (x : R) : R := IZR (Zfloor (x / 1000)).

(** The variables of a trial that the step loop updates. *)
Record TrialState : Type := mkTrialState {
  points : list Point;
  repulse : R;
  repulse_d : R;
  best_power : R;
  best_points : list Point
}.

(** The three annealed parameters of step [step], from the values of
    [repulse_d] and [repulse] that the previous step left. *)
Definition anneal (radius : R) (step : nat) (repulse_d repulse : R)
  : R * R * R :=
  let s := INR step in
  let magnitude := Rmax 1 (radius - 10 * (s / 100)) in
  let repulse_d' := Rmax 0 (repulse_d - floordiv_1000 (0.1 * s)) in
  let repulse' := Rmax 0 (repulse - floordiv_1000 (0.5 * s)) in
  (magnitude, repulse_d', repulse').

(** The parameters in force during step [step] of a trial that entered the
    loop with [repulse_d] and [repulse]: the updates of the steps
    [0 .. step] have been applied, one after the other. *)
Fixpoint annealed (radius : R) (step : nat) (repulse_d repulse : R)
  : R * R * R :=
  match step with
  | O => anneal radius 0 repulse_d repulse
  | S step' =>
      let '(_, repulse_d', repulse') :=
        annealed radius step' repulse_d repulse in
      anneal radius step repulse_d' repulse'
  end.

(** One pass of [for step in range(num_steps)]. *)
Definition dynamics_step (radius : R) (arena_size : Z) (step : nat)
    (st : TrialState) : result TrialState :=
  let '(magnitude, repulse_d', repulse') :=
    anneal radius step (repulse_d st) (repulse st) in
  points' ← move_all magnitude repulse' repulse_d' radius arena_size
                     (points st);
  power ← power_of radius points';
  if bool_decide (best_power st < power)
  then Ok (mkTrialState points' repulse' repulse_d' power points')
  else Ok (mkTrialState points' repulse' repulse_d'
                        (best_power st) (best_points st)).

(** The passes [step], [step + 1], ..., [step + count - 1] of the loop. *)
Fixpoint dynamics_steps (radius : R) (arena_size : Z) (step count : nat)
    (st : TrialState) : result TrialState :=
  match count with
  | O => Ok st
  | S count' =>
      st' ← dynamics_step radius arena_size step st;
      dynamics_steps radius arena_size (S step) count' st'
  end.

(** The constants of [dynamics]. *)
Definition radius : R := 200.
Definition num_steps : nat := Z.to_nat 10000.
Definition arena_size (num_points : Z) : Z := (2 * 200 * num_points)%Z.

(** The state in which a trial enters the step loop. *)
Definition trial_start (orig_repulse orig_repulse_d : R)
    (points : list Point) : TrialState :=
  mkTrialState points orig_repulse orig_repulse_d 0 [].

End Trials.

(** ** Vocabulary of the properties *)

(** The two arenas: below the line [y = 0] for the constructive search,
    around the origin for the relaxation. *)
Inductive Variant : Set := HalfPlane | OriginDisk.

(** A configuration is accepted when the validator of the variant returns
    [False]. *)
Definition accepted (v : Variant) (points : list Point) (radius : R)
    (arena_size : Z) : Prop :=
  match v with
  | HalfPlane => LineRandom.in_violation points radius arena_size = false
  | OriginDisk => Trials.in_violation_full points radius arena_size = Ok false
  end.

(** The boundary predicate of each variant. *)
Definition boundary_ok (v : Variant) (radius : R) (p : Point) : Prop :=
  match v with
  | HalfPlane => py p >= radius
  | OriginDisk => px p ^ 2 + py p ^ 2 >= radius ^ 2
  end.

(** Distance between a point and its focus. *)
Definition focus_distance (p : Point) : R := sqrt (sqfocus p).

(** The centre of a point, without its focus. *)
Definition centre (p : Point) : R * R := (px p, py p).

(** The focus of a point, without its centre. *)
Definition focus (p : Point) : R * R := (fx p, fy p).

(** The three checks that do not look at any line of sight. *)
Definition basic_violation (points : list Point) (radius : R) : bool :=
  degenerate points || self_intersect points radius
  || Trials.intersect_origin points radius.

(** The term of one point in the quality metric of the relaxation. *)
Definition inv_sq (radius : R) (p : Point) : R :=
  radius * radius * / sqfocus p.

(** The configuration in which every point of a step has made its tentative
    move at once: the synchronous update the rollback claim speaks of. *)
Fixpoint tentative_from (magnitude repulse repulse_d radius : R)
    (points : list Point) (i : nat) (todo : list Point)
  : result (list Point) :=
  match todo with
  | [] => Ok []
  | p :: todo' =>
      moved ← Trials.tentative magnitude repulse repulse_d radius points i p;
      rest ← tentative_from magnitude repulse repulse_d radius points
                            (S i) todo';
      Ok (moved :: rest)
  end.

Definition tentative_all (magnitude repulse repulse_d radius : R)
    (points : list Point) : result (list Point) :=
  tentative_from magnitude repulse repulse_d radius points 0 points.

(** The states in which [assign_foci] enters a pass of its outer loop:
    [reaches points i new_points] when the scans of the points before [i]
    have all been accepted and left [new_points]. *)
Inductive reaches (radius : R) (arena_size : Z) (max_x min_x : R)
    (points : list Point) : nat -> list Point -> Prop :=
  | reaches_start : reaches radius arena_size max_x min_x points 0 points
  | reaches_next (i : nat) (new_points new_points' : list Point) :
      reaches radius arena_size max_x min_x points i new_points ->
      (i < length points)%nat ->
      LineRandom.scan_point radius arena_size max_x min_x i new_points
        = Ok (true, new_points') ->
      reaches radius arena_size max_x min_x points (S i) new_points'.

(** Number of points of a configuration on the row of height [y]. *)
Definition row_count (y : R) (points : list Point) : nat :=
  length (filter (fun p => py p = y) points).

(** The heights [curr_y] of the rows that [angled_rows] lays, in order. *)
Fixpoint row_heights (rs : RandomSource) (radius : Z) (rows k : nat)
    (angle curr_y : R) : list R :=
  match rows with
  | O => []
  | S rows' =>
      let angle' := angle + random rs k * (3.14159 / 2 - angle) in
      curr_y :: row_heights rs radius rows' (S k) angle'
                            (curr_y + 2 * IZR radius * cos angle')
  end.

(** The annealing schedule as the specification words it: the step
    magnitude, and a parameter that has lost [rate] per 1000 elapsed steps,
    floored at 0. *)
Definition scheduled_magnitude (radius : R) (step : nat) : R :=
  Rmax 1 (radius - 10 * (INR step / 100)).

Definition scheduled_decay (initial rate : R) (step : nat) : R :=
  Rmax 0 (initial - rate * (INR step / 1000)).

Definition schedule (radius repulse_d repulse : R) (step : nat)
  : R * R * R :=
  (scheduled_magnitude radius step,
   scheduled_decay repulse_d 0.1 step,
   scheduled_decay repulse 0.5 step).

(** The line of sight that [is_blocked] gives a point: its slope, its
    intercept, and the distance of the centre of another point to it. *)
Definition sight_slope (p : Point) : R :=
  (py p - fy p + 0.01) / (px p - fx p + 0.01).

Definition sight_intercept (p : Point) : R :=
  py p - sight_slope p * px p.

Definition sight_distance (p1 p2 : Point) : R :=
  Rabs (sight_slope p1 * px p2 - py p2 + sight_intercept p1)
  / sqrt (sight_slope p1 * sight_slope p1 + 1).

(** What one pass of the loop of [is_blocked] decides when the distance
    is defined: [p2] obstructs [p1] when it is another point, is not
    skipped as being behind, and is closer than [radius] to the line of
    sight. *)
Definition obstructs (skip : Point -> Point -> bool) (radius : R)
    (p1 p2 : Point) : bool :=
  negb (bool_decide (p2 = p1)) && negb (skip p1 p2)
  && bool_decide (sight_distance p1 p2 < radius).

(** The half-plane policy skips the points strictly above. *)
Definition above (p1 p2 : Point) : bool := bool_decide (py p1 < py p2).

(** What a scan of [assign_foci] commits for a point that was [p]: the
    same centre, and a focus on the line [y = 0], in the lane
    [min_x .. max_x], at a whole offset [z] of the point. *)
Definition assigned (max_x min_x : R) (p q : Point) (z : Z) : Prop :=
  centre q = centre p /\ fy q = 0 /\ fx q = px p + IZR z
  /\ min_x <= fx q <= max_x.

(** What the loop of [assign_foci] has done for the point [p] of index [j]
    of [points] when its list is [np]: it has committed a focus for it,
    and, provided no two points of [points] coincide, the point is not
    blocked in [np]. *)
Definition committed (radius : R) (arena_size : Z) (max_x min_x : R)
    (points np : list Point) (j : nat) (p : Point) : Prop :=
  exists q z,
    np !! j = Some q /\ assigned max_x min_x p q z
    /\ (- arena_size < z < arena_size)%Z
    /\ (degenerate points = false ->
        LineRandom.is_blocked q np radius = Ok false).

(** ** Example configurations *)

Module Examples.

(** Two points of a relaxation trial, far from each other, the second one
    close to the origin disk; and where a step of magnitude 200 takes
    them. *)
Definition far : Point := mkPoint 600 800 0 0.
Definition near : Point := mkPoint (-180) (-240) 0 0.
Definition far_moved : Point := mkPoint 480 640 0 0.
Definition near_moved : Point := mkPoint (-60) (-80) 0 0.

(** Two points on a ray from the origin: the inner one hides the focus of
    the outer one. *)
Definition outer : Point := mkPoint 1000 1000 0 0.
Definition inner : Point := mkPoint 500 500 0 0.

(** A point pushed by two neighbours exactly as hard as its focus pulls. *)
Definition top : Point := mkPoint 0 1000 0 0.
Definition west : Point := mkPoint (-400) 900 0 0.
Definition east : Point := mkPoint 400 900 0 0.

(** Two points of a constructive layout; the second is out of the lane
    [min_x .. max_x] by more than the scan reaches. *)
Definition front : Point := mkPoint 0 100 405 0.
Definition stray : Point := mkPoint 2000 300 2405 0.
Definition front_assigned : Point := mkPoint 0 100 0 0.

(** A source whose first four integer draws are the coordinates of [far]
    and [near]. *)
Definition drawn : RandomSource :=
  {| randint := fun k _ _ => nth k [600; 800; -180; -240]%Z 0%Z;
     random := fun _ => 0 |}.

(** A source whose every draw is the least one allowed. *)
Definition least : RandomSource :=
  {| randint := fun _ a _ => a; random := fun _ => 0 |}.

End Examples.

(** * Properties *)

(** ** Running the model on concrete numbers *)

Ltac run :=
  cbn [mbind result_bind mret result_ret px py fx fy fst snd andb orb negb].

Ltac decide_reals :=
  repeat match goal with
  | |- context [bool_decide (?a < ?b)] =>
      first [ rewrite (bool_decide_eq_true_2 (a < b)) by lra
            | rewrite (bool_decide_eq_false_2 (a < b)) by lra ]
  | |- context [bool_decide (@eq R ?a ?b)] =>
      first [ rewrite (bool_decide_eq_true_2 (a = b)) by lra
            | rewrite (bool_decide_eq_false_2 (a = b)) by lra ]
  | |- context [bool_decide (@eq nat ?a ?b)] =>
      first [ rewrite (bool_decide_eq_true_2 (a = b)) by lia
            | rewrite (bool_decide_eq_false_2 (a = b)) by lia ]
  | |- context [bool_decide (@eq Point ?a ?b)] =>
      first [ rewrite (bool_decide_eq_true_2 (a = b)) by reflexivity
            | rewrite (bool_decide_eq_false_2 (a = b))
                by (intros [=]; lra) ]
  end.

(** ** The result monad and Python's partial operations *)

Lemma bind_Ok_inv {A B} (m : result A) (f : A -> result B) (b : B) :
  (m ≫= f) = Ok b -> exists a, m = Ok a /\ f a = Ok b.
Proof. destruct m as [a|e]; [|discriminate]. intros H. by exists a. Qed.

Lemma pdiv_ok (a b : R) : b <> 0 -> pdiv a b = Ok (a / b).
Proof. intros Hb. unfold pdiv. by rewrite decide_False. Qed.

Lemma pdiv_zero (a b : R) : b = 0 -> pdiv a b = Raise ZeroDivisionError.
Proof. intros Hb. unfold pdiv. by rewrite decide_True. Qed.

Lemma pdiv_Ok_inv (a b c : R) : pdiv a b = Ok c -> b <> 0 /\ c = a / b.
Proof. unfold pdiv. case_decide; [discriminate|]. by intros [= <-]. Qed.

Lemma pindex_ok {A} (l : list A) (i : nat) (a : A) :
  l !! i = Some a -> pindex l i = Ok a.
Proof. unfold pindex. by intros ->. Qed.

(** ** Square roots *)

Lemma sqrt_is (x y : R) : 0 <= y -> y * y = x -> sqrt x = y.
Proof. intros Hy <-. by apply sqrt_square. Qed.

Lemma sqrt_at_least (x c : R) : 0 <= c -> c * c <= x -> ~ sqrt x < c.
Proof.
  intros Hc Hx Hlt. apply sqrt_le_1_alt in Hx.
  rewrite sqrt_square in Hx by done. lra.
Qed.

Lemma sqrt_below (x c : R) : 0 <= x -> 0 < c -> x < c * c -> sqrt x < c.
Proof.
  intros Hx Hc Hlt. rewrite <- (sqrt_square c) by lra.
  by apply sqrt_lt_1_alt.
Qed.

Lemma sqfocus_nonneg (p : Point) : 0 <= sqfocus p.
Proof. unfold sqfocus. apply Rplus_le_le_0_compat; apply pow2_ge_0. Qed.

Lemma sqdist_nonneg (p q : Point) : 0 <= sqdist p q.
Proof. unfold sqdist. apply Rplus_le_le_0_compat; apply pow2_ge_0. Qed.

Lemma sqdist_sym (p q : Point) : sqdist p q = sqdist q p.
Proof. unfold sqdist. ring. Qed.

Lemma focus_distance_nonzero (p : Point) :
  focus_distance p <> 0 <-> sqfocus p <> 0.
Proof.
  unfold focus_distance. split; intros H Hz; apply H.
  - rewrite Hz. apply sqrt_0.
  - apply sqrt_eq_0; [apply sqfocus_nonneg|done].
Qed.

(** ** Distance to a line *)

Lemma slope_plus_inverse_nonzero (m : R) : m <> 0 -> m + 1 / m <> 0.
Proof.
  intros Hm Heq.
  assert (H : m * (m + 1 / m) = m * m + 1) by (field; exact Hm).
  rewrite Heq in H. nra.
Qed.

Lemma distance_on_line (m b x : R) :
  m <> 0 -> closest_distance_to_line m b x (m * x + b) = Ok 0.
Proof.
  intros Hm. unfold closest_distance_to_line.
  rewrite !pdiv_ok by done. run.
  rewrite pdiv_ok by (by apply slope_plus_inverse_nonzero). run.
  assert (Hx : (- b + (m * x + b) + x / m) / (m + 1 / m) = x).
  { pose proof (slope_plus_inverse_nonzero m Hm). field. split; [done|]. nra. }
  rewrite Hx. f_equal.
  replace ((x - x) ^ 2 + (m * x + b - (m * x + b)) ^ 2) with 0 by ring.
  apply sqrt_0.
Qed.

(** C8.  For a slope [m <> 0], any intercept [b] and any point [(x, y)] on
    the line [y = m * x + b], [closest_distance_to_line m b x y] returns
    exactly 0. *)
Theorem closest_distance_to_line_on_line (m b x y : R) :
  m <> 0 -> y = m * x + b -> closest_distance_to_line m b x y = Ok 0.
Proof. intros Hm ->. by apply distance_on_line. Qed.

Lemma closest_distance_to_line_on_line_witness :
  closest_distance_to_line 2 1 3 7 = Ok 0.
Proof. apply closest_distance_to_line_on_line; lra. Defined.

(** ** Scans of a configuration *)

Lemma existsb_false_elem {A} (test : A -> bool) (l : list A) (a : A) :
  existsb test l = false -> a ∈ l -> test a = false.
Proof.
  intros Hex Ha. destruct (test a) eqn:Hta; [|done].
  assert (existsb test l = true); [|congruence].
  apply existsb_exists. exists a. split; [by apply list_elem_of_In|done].
Qed.

Lemma any_pair_false {A} (test : A -> A -> bool) (l : list A) :
  any_pair test l = false ->
  forall (i j : nat) p q,
    (i < j)%nat -> l !! i = Some p -> l !! j = Some q -> test p q = false.
Proof.
  induction l as [|a l IH]; intros Hany i j p q Hij Hi Hj; [done|].
  cbn [any_pair] in Hany. apply orb_false_elim in Hany as [Hhead Htail].
  destruct j as [|j]; [lia|]. destruct i as [|i].
  - injection Hi as ->. apply (existsb_false_elem _ l); [done|].
    by apply (list_elem_of_lookup_2 _ j).
  - apply (IH Htail i j); [lia|done..].
Qed.

Lemma existsb_same_image {A B} (f : A -> B) (test test' : A -> bool) :
  (forall a a', f a = f a' -> test a = test' a') ->
  forall l l', map f l = map f l' -> existsb test l = existsb test' l'.
Proof.
  intros Htest. induction l as [|a l IH]; intros [|a' l'] Hmap;
    try done.
  cbn [map] in Hmap. injection Hmap as Ha Hl.
  cbn [existsb]. by rewrite (Htest a a' Ha), (IH l' Hl).
Qed.

Lemma any_pair_same_image {A B} (f : A -> B) (test : A -> A -> bool) :
  (forall a1 a1' a2 a2',
      f a1 = f a1' -> f a2 = f a2' -> test a1 a2 = test a1' a2') ->
  forall l l', map f l = map f l' -> any_pair test l = any_pair test l'.
Proof.
  intros Htest. induction l as [|a l IH]; intros [|a' l'] Hmap;
    try done.
  cbn [map] in Hmap. injection Hmap as Ha Hl.
  cbn [any_pair]. rewrite (IH l' Hl). f_equal.
  apply (existsb_same_image f); [|done].
  intros a2 a2' Ha2. by apply Htest.
Qed.

Lemma any_raising_false {A} (test : A -> result bool) (l : list A) :
  any_raising test l = Ok false -> forall a, a ∈ l -> test a = Ok false.
Proof.
  induction l as [|x l IH]; intros Hany a Ha; [by apply elem_of_nil in Ha|].
  cbn [any_raising] in Hany.
  apply bind_Ok_inv in Hany as (t & Ht & Hrest).
  destruct t; [discriminate|].
  apply elem_of_cons in Ha as [->|Ha]; [done|by apply IH].
Qed.

Lemma self_intersect_false (points : list Point) (radius : R) :
  self_intersect points radius = false ->
  forall (i j : nat) p q,
    i <> j -> points !! i = Some p -> points !! j = Some q ->
    sqdist p q >= 4 * radius ^ 2.
Proof.
  intros Hself i j p q Hij Hi Hj.
  assert (Hcase : (i < j)%nat \/ (j < i)%nat) by lia.
  destruct Hcase as [Hlt|Hlt].
  - pose proof (any_pair_false _ _ Hself i j p q Hlt Hi Hj) as Hov.
    unfold overlap in Hov. apply bool_decide_eq_false in Hov. lra.
  - pose proof (any_pair_false _ _ Hself j i q p Hlt Hj Hi) as Hov.
    unfold overlap in Hov. apply bool_decide_eq_false in Hov.
    rewrite (sqdist_sym p q). lra.
Qed.

(** ** The two validators *)

Lemma in_violation_false (points : list Point) (radius : R) (arena_size : Z) :
  LineRandom.in_violation points radius arena_size = false ->
  degenerate points = false /\ self_intersect points radius = false
  /\ LineRandom.intersect_origin_line points radius = false.
Proof.
  unfold LineRandom.in_violation.
  destruct (degenerate points), (self_intersect points radius),
    (LineRandom.intersect_origin_line points radius); done.
Qed.

Lemma in_violation_full_false (points : list Point) (radius : R)
    (arena_size : Z) :
  Trials.in_violation_full points radius arena_size = Ok false ->
  degenerate points = false /\ self_intersect points radius = false
  /\ Trials.intersect_origin points radius = false
  /\ any_raising (fun p => Trials.is_blocked p points radius) points = Ok false.
Proof.
  unfold Trials.in_violation_full.
  destruct (degenerate points), (self_intersect points radius),
    (Trials.intersect_origin points radius); done.
Qed.

Lemma in_violation_full_checks (points : list Point) (radius : R)
    (arena_size : Z) :
  Trials.in_violation_full points radius arena_size
  = if basic_violation points radius then Ok true
    else any_raising (fun p => Trials.is_blocked p points radius) points.
Proof.
  unfold Trials.in_violation_full, basic_violation.
  destruct (degenerate points), (self_intersect points radius),
    (Trials.intersect_origin points radius); done.
Qed.

Lemma in_violation_centres (points points' : list Point) (radius : R)
    (arena_size : Z) :
  map centre points = map centre points' ->
  LineRandom.in_violation points radius arena_size
  = LineRandom.in_violation points' radius arena_size.
Proof.
  intros Hc.
  unfold LineRandom.in_violation, degenerate, self_intersect,
    LineRandom.intersect_origin_line.
  rewrite (any_pair_same_image centre coincide) with (l' := points');
    [|by intros a1 a1' a2 a2' [= H1 H2] [= H3 H4]; unfold coincide;
         rewrite H1, H2, H3, H4|done].
  rewrite (any_pair_same_image centre (overlap radius)) with (l' := points');
    [|by intros a1 a1' a2 a2' [= H1 H2] [= H3 H4]; unfold overlap, sqdist;
         rewrite H1, H2, H3, H4|done].
  rewrite (existsb_same_image centre (fun p => bool_decide (py p < radius))
             (fun p => bool_decide (py p < radius))) with (l' := points');
    [done|by intros a a' [= H1 H2]; rewrite H2|done].
Qed.

Ltac validator_checks :=
  unfold Trials.in_violation_full, degenerate, self_intersect,
    Trials.intersect_origin, coincide, overlap, sqdist;
  cbn [any_pair existsb]; run; decide_reals; run.

Ltac blocked_scan :=
  unfold Trials.is_blocked; run; rewrite ?pdiv_ok by lra; run;
  cbn [any_raising]; unfold Trials.blocks, Trials.behind; run;
  decide_reals; run.

Ltac distance_checks :=
  unfold closest_distance_to_line; repeat (rewrite pdiv_ok by lra; run);
  repeat match goal with
  | |- context [bool_decide (sqrt ?e < ?c)] =>
      first [ rewrite (bool_decide_eq_false_2 (sqrt e < c))
                by (apply sqrt_at_least; lra)
            | rewrite (bool_decide_eq_true_2 (sqrt e < c))
                by (apply sqrt_below; lra) ]
  end; run.

(** ** Forces and tentative moves *)

Section Forces.
Variables (repulse repulse_d radius : R).

Lemma repulsion_total (p_i : Point) (i : nat) (rest : list Point) :
  forall (j : nat) (r_force : R * R),
  exists r, Trials.repulsion repulse repulse_d radius p_i i j rest r_force = Ok r.
Proof.
  induction rest as [|p rest IH]; intros j r_force; cbn [Trials.repulsion].
  - by exists r_force.
  - case_bool_decide; [apply IH|].
    case_bool_decide as Hnear; [|apply IH].
    assert (Hr : radius <> 0).
    { intros ->. rewrite Rabs_R0, Rmult_0_r in Hnear.
      pose proof (Rabs_pos (sqrt (sqdist p_i p))). lra. }
    rewrite !pdiv_ok by done. run. apply IH.
Qed.

Lemma sum_forces_defined (i : nat) (points : list Point) (p : Point) :
  points !! i = Some p ->
  (exists f, Trials.sum_forces i points repulse repulse_d radius = Ok f)
  <-> focus_distance p <> 0.
Proof.
  intros Hp. unfold Trials.sum_forces. rewrite (pindex_ok _ _ _ Hp). run.
  fold (focus_distance p). split.
  - intros [f Hf] Hz. rewrite !(pdiv_zero _ _ Hz) in Hf. cbn [mbind result_bind] in Hf.
    discriminate.
  - intros Hd. rewrite !pdiv_ok by done. run.
    destruct (repulsion_total p i points 0%nat (0, 0)) as [r ->]. run.
    by eexists.
Qed.

Lemma norm_zero (f_x f_y : R) :
  sqrt (f_x ^ 2 + f_y ^ 2) = 0 <-> (f_x, f_y) = (0, 0).
Proof.
  split.
  - intros Hz. apply sqrt_eq_0 in Hz;
      [|apply Rplus_le_le_0_compat; apply pow2_ge_0].
    assert (f_x = 0 /\ f_y = 0) as [-> ->]; [|done].
    pose proof (pow2_ge_0 f_x). pose proof (pow2_ge_0 f_y). split; nra.
  - intros [= -> ->]. replace (0 ^ 2 + 0 ^ 2) with 0 by ring. apply sqrt_0.
Qed.

Lemma tentative_defined (magnitude : R) (i : nat) (points : list Point)
    (p : Point) :
  (exists moved,
      Trials.tentative magnitude repulse repulse_d radius points i p = Ok moved)
  <-> exists f, Trials.sum_forces i points repulse repulse_d radius = Ok f
               /\ f <> (0, 0).
Proof.
  unfold Trials.tentative. split.
  - intros [moved Hm]. apply bind_Ok_inv in Hm as ([f_x f_y] & Hf & Hm).
    exists (f_x, f_y). split; [done|]. intros Hz. apply norm_zero in Hz.
    rewrite !(pdiv_zero _ _ Hz) in Hm. cbn [mbind result_bind] in Hm.
    discriminate.
  - intros ([f_x f_y] & -> & Hnz). run.
    assert (sqrt (f_x ^ 2 + f_y ^ 2) <> 0) by (by rewrite norm_zero).
    rewrite !pdiv_ok by done. run. by eexists.
Qed.

Lemma tentative_focus (magnitude : R) (i : nat) (points : list Point)
    (p moved : Point) :
  Trials.tentative magnitude repulse repulse_d radius points i p = Ok moved ->
  focus moved = focus p.
Proof.
  unfold Trials.tentative. intros Hm.
  apply bind_Ok_inv in Hm as ([f_x f_y] & _ & Hm).
  apply bind_Ok_inv in Hm as (dx & _ & Hm).
  apply bind_Ok_inv in Hm as (dy & _ & Hm).
  by injection Hm as <-.
Qed.

End Forces.

(** ** One step of the relaxation *)

Lemma drop_cons_inv {A} (l : list A) (i : nat) (x : A) (t : list A) :
  drop i l = x :: t -> l !! i = Some x /\ drop (S i) l = t.
Proof.
  intros Hd.
  assert (Hx : l !! i = Some x).
  { rewrite <- (Nat.add_0_r i), <- lookup_drop, Hd. done. }
  split; [done|]. rewrite (drop_S _ _ _ Hx) in Hd. by injection Hd.
Qed.

Lemma rollback_restores {A} (l : list A) (i : nat) (p moved : A) :
  l !! i = Some p -> <[i := p]> (<[i := moved]> l) = l.
Proof. intros Hp. by rewrite list_insert_insert_eq, list_insert_id. Qed.

Section Step.
Variables (magnitude repulse repulse_d radius : R) (arena_size : Z).
Variable points : list Point.

#[local] Abbreviation tent := (Trials.tentative magnitude repulse repulse_d radius points).
#[local] Abbreviation loop :=
    (Trials.move_loop magnitude repulse repulse_d radius arena_size points).
#[local] Abbreviation valid l := (Trials.in_violation_full l radius arena_size).

Lemma move_loop_spec (todo : list Point) :
  forall (i : nat) (np res : list Point),
    drop i points = todo -> drop i np = todo ->
    loop i todo np = Ok res ->
    take i res = take i np /\ length res = length np
    /\ forall (j : nat) (p : Point),
        (i <= j)%nat -> points !! j = Some p ->
        exists moved v,
          tent j p = Ok moved
          /\ valid (<[j := moved]> (take j res ++ drop j points)) = Ok v
          /\ res !! j = Some (if v : bool then p else moved).
Proof.
  induction todo as [|p todo IH]; intros i np res Hpts Hnp Hloop.
  - cbn in Hloop. injection Hloop as <-. split; [done|]. split; [done|].
    intros j q Hij Hq. exfalso.
    assert (Hnone : drop i points !! (j - i)%nat = None) by (by rewrite Hpts).
    rewrite lookup_drop in Hnone. replace (i + (j - i))%nat with j in Hnone by lia.
    congruence.
  - apply drop_cons_inv in Hpts as [Hpi Hpts].
    apply drop_cons_inv in Hnp as [Hnpi Hnp].
    cbn [Trials.move_loop] in Hloop.
    apply bind_Ok_inv in Hloop as (moved & Hmoved & Hloop).
    apply bind_Ok_inv in Hloop as (v & Hv & Hloop).
    set (np2 := if v then <[i:=p]> (<[i:=moved]> np) else <[i:=moved]> np)
      in Hloop.
    assert (Hi : (i < length np)%nat) by (by eapply lookup_lt_Some).
    assert (Hnp2 : np2 = <[i := if v then p else moved]> np).
    { subst np2. destruct v; [|done].
      by rewrite list_insert_insert_eq. }
    assert (Hdrop2 : drop (S i) np2 = todo).
    { rewrite Hnp2, drop_insert_lt by lia. done. }
    destruct (IH (S i) np2 res Hpts Hdrop2 Hloop) as (Htake & Hlen & Hlater).
    assert (Htake_i : take i res = take i np).
    { replace i with (min i (S i)) at 1 by lia.
      rewrite <- take_take, Htake, take_take, Hnp2.
      replace (min i (S i)) with i by lia.
      by rewrite take_insert_ge by lia. }
    split; [done|]. split; [by rewrite Hlen, Hnp2, length_insert|].
    intros j q Hij Hq.
    destruct (decide (j = i)) as [->|Hne]; [|apply Hlater; [lia|done]].
    assert (q = p) as -> by congruence.
    exists moved, v. split; [done|]. split.
    + rewrite Htake_i.
      replace (drop i points) with (drop i np).
      * by rewrite take_drop.
      * rewrite (drop_S _ _ _ Hnpi), (drop_S _ _ _ Hpi). congruence.
    + rewrite <- (lookup_take_lt res (S i) i) by lia.
      rewrite Htake, lookup_take_lt by lia.
      rewrite Hnp2. by apply list_lookup_insert_eq.
Qed.


Lemma move_all_spec (res : list Point) :
  Trials.move_all magnitude repulse repulse_d radius arena_size points = Ok res ->
  length res = length points
  /\ forall (j : nat) (p : Point),
      points !! j = Some p ->
      exists moved v,
        tent j p = Ok moved
        /\ valid (<[j := moved]> (take j res ++ drop j points)) = Ok v
        /\ res !! j = Some (if v : bool then p else moved).
Proof.
  intros Hres.
  destruct (move_loop_spec points 0 points res eq_refl eq_refl Hres)
    as (_ & Hlen & Hspec).
  split; [done|]. intros j p Hp. apply Hspec; [lia|done].
Qed.

Lemma move_all_foci (res : list Point) :
  Trials.move_all magnitude repulse repulse_d radius arena_size points = Ok res ->
  map focus res = map focus points.
Proof.
  intros Hres. apply move_all_spec in Hres as [Hlen Hspec].
  apply list_eq. intros j.
  change (map focus res !! j) with ((focus <$> res) !! j).
  change (map focus points !! j) with ((focus <$> points) !! j).
  rewrite !list_lookup_fmap.
  destruct (points !! j) as [p|] eqn:Hp.
  - destruct (Hspec j p Hp) as (moved & v & Hmoved & _ & ->).
    cbn. f_equal. destruct v; [done|]. by eapply tentative_focus.
  - rewrite (lookup_ge_None_2 res j); [done|].
    rewrite Hlen. by apply lookup_ge_None_1.
Qed.

Lemma move_all_raises (i : nat) (p : Point) :
  points !! i = Some p ->
  Trials.sum_forces i points repulse repulse_d radius = Ok (0, 0) ->
  exists e,
    Trials.move_all magnitude repulse repulse_d radius arena_size points
    = Raise e.
Proof.
  intros Hp Hzero.
  destruct (Trials.move_all magnitude repulse repulse_d radius arena_size
              points) as [res|e] eqn:Hres; [|by exists e].
  apply move_all_spec in Hres as [_ Hspec].
  destruct (Hspec i p Hp) as (moved & _ & Hmoved & _).
  assert (Hdef : exists m, tent i p = Ok m) by (by exists moved).
  apply tentative_defined in Hdef as (f & Hf & Hnz).
  congruence.
Qed.

End Step.


(** ** A step in which one point is held back *)

Import Examples.

Lemma far_tentative :
  Trials.tentative 200 50 2.1 200 [far; near] 0 far = Ok far_moved.
Proof.
  unfold Trials.tentative, Trials.sum_forces, pindex, far, near, far_moved.
  cbn [lookup list_lookup]. run. unfold sqfocus. run.
  rewrite (sqrt_is _ 1000) by lra. rewrite !pdiv_ok by lra. run.
  cbn [Trials.repulsion]. decide_reals. unfold sqdist. run.
  rewrite (sqrt_is _ 1300) by lra.
  rewrite !Rabs_pos_eq by lra. decide_reals. run.
  rewrite (sqrt_is _ 1) by lra. rewrite !pdiv_ok by lra. run.
  f_equal. f_equal; lra.
Qed.

Lemma near_tentative :
  Trials.tentative 200 50 2.1 200 [far; near] 1 near = Ok near_moved.
Proof.
  unfold Trials.tentative, Trials.sum_forces, pindex, far, near, near_moved.
  cbn [lookup list_lookup]. run. unfold sqfocus. run.
  rewrite (sqrt_is _ 300) by lra. rewrite !pdiv_ok by lra. run.
  cbn [Trials.repulsion]. decide_reals. unfold sqdist. run.
  rewrite (sqrt_is _ 1300) by lra.
  rewrite !Rabs_pos_eq by lra. decide_reals. run.
  rewrite (sqrt_is _ 1) by lra. rewrite !pdiv_ok by lra. run.
  f_equal. f_equal; lra.
Qed.

Lemma far_near_accepted :
  Trials.in_violation_full [far; near] 200 800 = Ok false.
Proof.
  unfold far, near. validator_checks. cbn [any_raising].
  blocked_scan. blocked_scan. done.
Qed.

Lemma far_moved_near_accepted :
  Trials.in_violation_full [far_moved; near] 200 800 = Ok false.
Proof.
  unfold far_moved, near. validator_checks. cbn [any_raising].
  blocked_scan. blocked_scan. done.
Qed.

Lemma both_moved_rejected :
  Trials.in_violation_full [far_moved; near_moved] 200 800 = Ok true.
Proof. unfold far_moved, near_moved. validator_checks. done. Qed.

Lemma far_near_tentative_all :
  tentative_all 200 50 2.1 200 [far; near] = Ok [far_moved; near_moved].
Proof.
  unfold tentative_all. cbn [tentative_from].
  rewrite far_tentative, near_tentative. done.
Qed.

Lemma far_near_step :
  Trials.move_all 200 50 2.1 200 800 [far; near] = Ok [far_moved; near].
Proof.
  unfold Trials.move_all. cbn [Trials.move_loop].
  rewrite far_tentative. run.
  change (<[0%nat:=far_moved]> [far; near]) with [far_moved; near].
  rewrite far_moved_near_accepted. run. rewrite near_tentative. run.
  change (<[1%nat:=near_moved]> [far_moved; near])
    with [far_moved; near_moved].
  rewrite both_moved_rejected. run. done.
Qed.

(** C1, as the specification states it, fails: the synchronous update of
    [far] and [near] is rejected by the validator, and yet the step moves
    [far]. *)
Lemma rollback_is_not_global :
  ~ (forall (magnitude repulse repulse_d radius : R) (arena_size : Z)
            (points moved : list Point),
        tentative_all magnitude repulse repulse_d radius points = Ok moved ->
        Trials.in_violation_full moved radius arena_size = Ok true ->
        Trials.move_all magnitude repulse repulse_d radius arena_size points
        = Ok points).
Proof.
  intros Hclaim.
  pose proof (Hclaim 200 50 2.1 200 800%Z [far; near] _
                far_near_tentative_all both_moved_rejected) as Hstep.
  rewrite far_near_step in Hstep. injection Hstep. intros. lra.
Qed.

(** C1, amended.  The rollback of a step is per point: the new position of
    point [j] is its tentative one, unless the validator rejects the
    configuration made of the points before [j] as the step has left them,
    the tentative position of [j], and the points after [j] where the step
    found them; then point [j] alone keeps its position. *)
Theorem rollback_is_per_point (magnitude repulse repulse_d radius : R)
    (arena_size : Z) (points res : list Point) :
  Trials.move_all magnitude repulse repulse_d radius arena_size points
  = Ok res ->
  length res = length points
  /\ forall (j : nat) (p : Point),
      points !! j = Some p ->
      exists moved v,
        Trials.tentative magnitude repulse repulse_d radius points j p
        = Ok moved
        /\ Trials.in_violation_full
             (<[j := moved]> (take j res ++ drop j points)) radius arena_size
           = Ok v
        /\ res !! j = Some (if v : bool then p else moved).
Proof. apply move_all_spec. Qed.

Lemma rollback_is_per_point_witness :
  length [far_moved; near] = length [far; near]
  /\ forall (j : nat) (p : Point),
      [far; near] !! j = Some p ->
      exists moved v,
        Trials.tentative 200 50 2.1 200 [far; near] j p = Ok moved
        /\ Trials.in_violation_full
             (<[j := moved]> (take j [far_moved; near] ++ drop j [far; near]))
             200 800
           = Ok v
        /\ [far_moved; near] !! j = Some (if v : bool then p else moved).
Proof. apply rollback_is_per_point. exact far_near_step. Defined.


(** ** The foci through a trial *)

Lemma random_init_uniform_from_foci (rs : RandomSource) (count : nat)
    (arena_size : Z) :
  forall (k : nat) (pts : list Point),
    Trials.random_init_uniform_from rs k count arena_size = Ok pts ->
    forall p, p ∈ pts -> focus p = (0, 0).
Proof.
  induction count as [|count IH]; intros k pts Hpts p Hp.
  - injection Hpts as <-. by apply elem_of_nil in Hp.
  - cbn [Trials.random_init_uniform_from] in Hpts.
    apply bind_Ok_inv in Hpts as (x & _ & Hpts).
    apply bind_Ok_inv in Hpts as (y & _ & Hpts).
    apply bind_Ok_inv in Hpts as (rest & Hrest & Hpts).
    injection Hpts as <-.
    apply elem_of_cons in Hp as [->|Hp]; [done|].
    by apply (IH (S (S k)) rest).
Qed.

Lemma dynamics_step_foci (radius : R) (arena_size : Z) (step : nat)
    (st st' : Trials.TrialState) :
  Trials.dynamics_step radius arena_size step st = Ok st' ->
  map focus (Trials.points st') = map focus (Trials.points st).
Proof.
  unfold Trials.dynamics_step.
  destruct (Trials.anneal radius step (Trials.repulse_d st) (Trials.repulse st))
    as [[magnitude repulse_d'] repulse'].
  intros Hst. apply bind_Ok_inv in Hst as (points' & Hmove & Hst).
  apply bind_Ok_inv in Hst as (power & _ & Hst).
  apply move_all_foci in Hmove.
  case_bool_decide; by injection Hst as <-.
Qed.

Lemma dynamics_steps_foci (radius : R) (arena_size : Z) (count : nat) :
  forall (step : nat) (st st' : Trials.TrialState),
    Trials.dynamics_steps radius arena_size step count st = Ok st' ->
    map focus (Trials.points st') = map focus (Trials.points st).
Proof.
  induction count as [|count IH]; intros step st st' Hrun.
  - by injection Hrun as <-.
  - cbn [Trials.dynamics_steps] in Hrun.
    apply bind_Ok_inv in Hrun as (st1 & Hstep & Hrun).
    rewrite (IH _ _ _ Hrun). by eapply dynamics_step_foci.
Qed.

(** C9.  Through a relaxation trial, whatever the number of steps taken,
    the foci of the points are those the uniform-random initialiser gave
    them, that is [(0, 0)]: a step writes only the centres. *)
Theorem relaxation_keeps_foci (rs : RandomSource) (k : nat)
    (num_points arena radius0 : Z) (start : list Point)
    (radius : R) (arena_size : Z) (orig_repulse orig_repulse_d : R)
    (step count : nat) (st : Trials.TrialState) :
  Trials.random_init_uniform rs k num_points arena radius0 = Ok start ->
  Trials.dynamics_steps radius arena_size step count
    (Trials.trial_start orig_repulse orig_repulse_d start) = Ok st ->
  map focus (Trials.points st) = map focus start
  /\ forall p, p ∈ Trials.points st -> focus p = (0, 0).
Proof.
  intros Hstart Hrun. apply dynamics_steps_foci in Hrun.
  cbn [Trials.trial_start Trials.points] in Hrun. split; [done|].
  intros p Hp.
  apply (list_elem_of_fmap_2 focus) in Hp.
  change (focus <$> Trials.points st) with (map focus (Trials.points st)) in Hp.
  rewrite Hrun in Hp.
  change (map focus start) with (focus <$> start) in Hp.
  apply list_elem_of_fmap in Hp as (q & -> & Hq).
  by eapply random_init_uniform_from_foci.
Qed.


(** ** The annealing of the step parameters *)

Lemma floordiv_1000_small (x : R) :
  0 <= x < 1000 -> Trials.floordiv_1000 x = 0.
Proof.
  intros Hx. unfold Trials.floordiv_1000.
  rewrite (Zfloor_eq 0); [done|]. lra.
Qed.

Lemma INR_below (s : nat) (z : Z) : (Z.of_nat s < z)%Z -> INR s < IZR z.
Proof. intros Hs. rewrite INR_IZR_INZ. by apply IZR_lt. Qed.

Lemma Rmax_floor_0 (x : R) : 0 <= x -> Rmax 0 x = x.
Proof. intros Hx. by apply Rmax_right. Qed.

Lemma anneal_quiet (radius : R) (step : nat) (repulse_d repulse : R) :
  0 <= repulse_d -> 0 <= repulse -> (Z.of_nat step < 2000)%Z ->
  Trials.anneal radius step repulse_d repulse
  = (scheduled_magnitude radius step, repulse_d, repulse).
Proof.
  intros Hd Hr Hs. unfold Trials.anneal, scheduled_magnitude.
  pose proof (INR_below step 2000 Hs) as Hlt. pose proof (pos_INR step).
  rewrite !floordiv_1000_small by lra.
  rewrite !Rminus_0_r, !Rmax_floor_0 by done. done.
Qed.

Lemma annealed_quiet (radius : R) (step : nat) (repulse_d repulse : R) :
  0 <= repulse_d -> 0 <= repulse -> (Z.of_nat step < 2000)%Z ->
  Trials.annealed radius step repulse_d repulse
  = (scheduled_magnitude radius step, repulse_d, repulse).
Proof.
  intros Hd Hr. induction step as [|step IH]; intros Hs;
    cbn [Trials.annealed].
  - by apply anneal_quiet.
  - rewrite IH by lia. by apply anneal_quiet.
Qed.

Lemma dynamics_step_params (radius : R) (arena_size : Z) (step : nat)
    (st st' : Trials.TrialState) :
  Trials.dynamics_step radius arena_size step st = Ok st' ->
  exists magnitude,
    Trials.anneal radius step (Trials.repulse_d st) (Trials.repulse st)
    = (magnitude, Trials.repulse_d st', Trials.repulse st').
Proof.
  unfold Trials.dynamics_step.
  destruct (Trials.anneal radius step (Trials.repulse_d st) (Trials.repulse st))
    as [[magnitude repulse_d'] repulse'].
  intros Hst. apply bind_Ok_inv in Hst as (points' & _ & Hst).
  apply bind_Ok_inv in Hst as (power & _ & Hst).
  exists magnitude. case_bool_decide; by injection Hst as <-.
Qed.

Lemma dynamics_steps_snoc (radius : R) (arena_size : Z) (count : nat) :
  forall (step : nat) (st : Trials.TrialState),
    Trials.dynamics_steps radius arena_size step (S count) st
    = Trials.dynamics_steps radius arena_size step count st
      ≫= Trials.dynamics_step radius arena_size (step + count).
Proof.
  induction count as [|count IH]; intros step st.
  - cbn [Trials.dynamics_steps]. rewrite Nat.add_0_r.
    run. by destruct (Trials.dynamics_step radius arena_size step st).
  - change (Trials.dynamics_steps radius arena_size step (S (S count)) st)
      with (Trials.dynamics_step radius arena_size step st
            ≫= Trials.dynamics_steps radius arena_size (S step) (S count)).
    change (Trials.dynamics_steps radius arena_size step (S count) st)
      with (Trials.dynamics_step radius arena_size step st
            ≫= Trials.dynamics_steps radius arena_size (S step) count).
    destruct (Trials.dynamics_step radius arena_size step st) as [st1|e];
      [|done].
    run. rewrite IH. by replace (S step + count)%nat with (step + S count)%nat
      by lia.
Qed.

(** The parameters of the trial state follow [annealed]. *)
Lemma dynamics_steps_annealed (radius : R) (arena_size : Z) (count : nat) :
  forall (st st' : Trials.TrialState),
    Trials.dynamics_steps radius arena_size 0 (S count) st = Ok st' ->
    exists magnitude,
      Trials.annealed radius count (Trials.repulse_d st) (Trials.repulse st)
      = (magnitude, Trials.repulse_d st', Trials.repulse st').
Proof.
  induction count as [|count IH]; intros st st' Hrun.
  - cbn [Trials.dynamics_steps] in Hrun.
    apply bind_Ok_inv in Hrun as (st1 & Hstep & Hrun).
    injection Hrun as <-. cbn [Trials.annealed].
    by eapply dynamics_step_params.
  - rewrite dynamics_steps_snoc in Hrun.
    apply bind_Ok_inv in Hrun as (st1 & Hrun & Hstep).
    destruct (IH _ _ Hrun) as [m Hm]. cbn [Trials.annealed]. rewrite Hm.
    by eapply dynamics_step_params.
Qed.

Lemma INR_1000 : INR (Z.to_nat 1000) = 1000.
Proof. rewrite INR_IZR_INZ. by rewrite Z2Nat.id by lia. Qed.

(** C4.  At step 1000 of a trial started with the default
    [repulse_d = 2.1] and [repulse = 50], the step magnitude is the
    scheduled 100, but neither repulsion parameter has decayed, where the
    schedule has them at 2.0 and 49.5. *)
Theorem repulsion_not_annealed_at_step_1000 :
  Trials.annealed 200 (Z.to_nat 1000) 2.1 50 = (100, 2.1, 50)
  /\ schedule 200 2.1 50 (Z.to_nat 1000) = (100, 2, 49.5).
Proof.
  split.
  - rewrite annealed_quiet by (rewrite ?Z2Nat.id; lra || lia).
    unfold scheduled_magnitude. rewrite INR_1000.
    rewrite Rmax_right by lra. f_equal. f_equal. lra.
  - unfold schedule, scheduled_magnitude, scheduled_decay.
    rewrite INR_1000. rewrite !Rmax_right by lra.
    f_equal; [f_equal|]; lra.
Qed.


(** ** The quality metric *)

Lemma psum_from (l : list R) (a : R) :
  fold_left Rplus l a = a + Trials.psum l.
Proof.
  unfold Trials.psum. revert a.
  induction l as [|x l IH]; intros a; cbn [fold_left]; [lra|].
  rewrite (IH (a + x)), (IH (0 + x)). lra.
Qed.

Lemma psum_cons (x : R) (l : list R) :
  Trials.psum (x :: l) = x + Trials.psum l.
Proof. unfold Trials.psum at 1. cbn [fold_left]. rewrite psum_from. lra. Qed.

Lemma inv_sq_distances_ok (radius : R) (l : list Point) :
  (forall p, p ∈ l -> sqfocus p <> 0) ->
  Trials.inv_sq_distances radius l = Ok (map (inv_sq radius) l).
Proof.
  induction l as [|x l IH]; intros Hl; [done|].
  cbn [Trials.inv_sq_distances map]. unfold pinv.
  rewrite decide_False by (apply Hl; left).
  run. rewrite IH; [done|].
  intros p Hp. apply Hl. by right.
Qed.

Lemma psum_insert (f : Point -> R) (l : list Point) (i : nat) (a b : Point) :
  l !! i = Some a ->
  Trials.psum (map f (<[i := b]> l)) = Trials.psum (map f l) - f a + f b.
Proof.
  revert i. induction l as [|x l IH]; intros i Hi; [done|].
  destruct i as [|i]; cbn [map]; cbn in Hi.
  - injection Hi as ->. change (<[0%nat:=b]> (a :: l)) with (b :: l).
    cbn [map]. rewrite !psum_cons. lra.
  - change (<[S i:=b]> (x :: l)) with (x :: <[i:=b]> l). cbn [map].
    rewrite !psum_cons, (IH i Hi). lra.
Qed.

Lemma inv_sq_decreasing (radius : R) (p q : Point) :
  radius <> 0 -> 0 < sqfocus q < sqfocus p ->
  inv_sq radius p < inv_sq radius q.
Proof.
  intros Hr [Hq Hlt]. unfold inv_sq.
  apply Rmult_lt_compat_l; [nra|].
  apply Rinv_lt_contravar; [nra|done].
Qed.

(** C6.  Of two configurations of equal length whose points all stand at a
    nonzero distance of their focus, and which differ in one point only,
    the one where that point is strictly closer to its focus has the
    strictly greater inverse-square-sum quality metric. *)
Theorem power_grows_as_focus_nears (A B : list Point) (i : nat)
    (pA pB : Point) :
  length A = length B ->
  A !! i = Some pA -> B !! i = Some pB ->
  (forall j : nat, j <> i -> A !! j = B !! j) ->
  (forall p, p ∈ A -> focus_distance p <> 0) ->
  (forall p, p ∈ B -> focus_distance p <> 0) ->
  focus_distance pB < focus_distance pA ->
  exists vA vB,
    Trials.power_of Trials.radius A = Ok vA
    /\ Trials.power_of Trials.radius B = Ok vB
    /\ vA < vB.
Proof.
  intros Hlen HA HB Hothers HdA HdB Hlt.
  assert (HBA : B = <[i := pB]> A).
  { apply list_eq. intros j. destruct (decide (j = i)) as [->|Hne].
    - rewrite list_lookup_insert_eq; [done|]. by eapply lookup_lt_Some.
    - rewrite list_lookup_insert_ne by done. symmetry. by apply Hothers. }
  exists (Trials.psum (map (inv_sq Trials.radius) A)),
         (Trials.psum (map (inv_sq Trials.radius) B)).
  unfold Trials.power_of.
  rewrite !inv_sq_distances_ok
    by (intros p Hp; apply focus_distance_nonzero; auto).
  split; [done|]. split; [done|].
  rewrite HBA, (psum_insert _ A i pA pB HA).
  assert (inv_sq Trials.radius pA < inv_sq Trials.radius pB); [|lra].
  apply inv_sq_decreasing; [unfold Trials.radius; lra|].
  pose proof (sqfocus_nonneg pB) as HnB.
  assert (sqfocus pB <> 0).
  { apply focus_distance_nonzero, HdB. by eapply list_elem_of_lookup_2. }
  split; [lra|]. by apply sqrt_lt_0_alt.
Qed.

Lemma focus_distance_is (p : Point) (d : R) :
  0 <= d -> d * d = sqfocus p -> focus_distance p = d.
Proof. intros Hd Hsq. unfold focus_distance. by apply sqrt_is. Qed.

Lemma far_distance : focus_distance far = 1000.
Proof. apply focus_distance_is; unfold sqfocus, far; cbn; lra. Qed.

Lemma far_moved_distance : focus_distance far_moved = 800.
Proof. apply focus_distance_is; unfold sqfocus, far_moved; cbn; lra. Qed.

Lemma near_distance : focus_distance near = 300.
Proof. apply focus_distance_is; unfold sqfocus, near; cbn; lra. Qed.

Lemma power_grows_as_focus_nears_witness :
  exists vA vB,
    Trials.power_of Trials.radius [far; near] = Ok vA
    /\ Trials.power_of Trials.radius [far_moved; near] = Ok vB
    /\ vA < vB.
Proof.
  apply (power_grows_as_focus_nears [far; near] [far_moved; near] 0
           far far_moved); try reflexivity.
  - intros [|[|j]] Hj; [done|reflexivity|reflexivity].
  - intros p Hp. apply elem_of_cons in Hp as [->|Hp];
      [rewrite far_distance; lra|].
    apply list_elem_of_singleton in Hp as ->. rewrite near_distance. lra.
  - intros p Hp. apply elem_of_cons in Hp as [->|Hp];
      [rewrite far_moved_distance; lra|].
    apply list_elem_of_singleton in Hp as ->. rewrite near_distance. lra.
  - rewrite far_distance, far_moved_distance. lra.
Defined.


(** ** A trial of one step *)

Lemma drawn_start :
  Trials.random_init_uniform drawn 0 2 800 200 = Ok [far; near].
Proof. reflexivity. Qed.

Lemma far_moved_near_power :
  Trials.power_of 200 [far_moved; near]
  = Ok (Trials.psum (map (inv_sq 200) [far_moved; near])).
Proof.
  unfold Trials.power_of. rewrite inv_sq_distances_ok; [done|].
  intros p Hp. apply focus_distance_nonzero.
  apply elem_of_cons in Hp as [->|Hp]; [rewrite far_moved_distance; lra|].
  apply list_elem_of_singleton in Hp as ->. rewrite near_distance. lra.
Qed.

Lemma far_near_first_step :
  exists power,
    Trials.dynamics_steps 200 800 0 1 (Trials.trial_start 50 2.1 [far; near])
    = Ok (Trials.mkTrialState [far_moved; near] 50 2.1 power
            [far_moved; near]).
Proof.
  exists (Trials.psum (map (inv_sq 200) [far_moved; near])).
  cbn [Trials.dynamics_steps]. unfold Trials.dynamics_step.
  cbn [Trials.trial_start Trials.points Trials.repulse Trials.repulse_d
       Trials.best_power Trials.best_points].
  rewrite anneal_quiet by (lra || lia).
  unfold scheduled_magnitude. cbn [INR].
  replace (Rmax 1 (200 - 10 * (0 / 100))) with 200
    by (rewrite Rmax_right; lra).
  rewrite far_near_step. run. rewrite far_moved_near_power. run.
  rewrite bool_decide_eq_true_2; [done|].
  cbn [map]. rewrite !psum_cons. unfold Trials.psum, inv_sq. cbn [fold_left].
  pose proof (sqfocus_nonneg far_moved). pose proof (sqfocus_nonneg near).
  assert (0 < / sqfocus far_moved).
  { apply Rinv_0_lt_compat. unfold sqfocus, far_moved. cbn. lra. }
  assert (0 < / sqfocus near).
  { apply Rinv_0_lt_compat. unfold sqfocus, near. cbn. lra. }
  nra.
Qed.

Lemma relaxation_keeps_foci_witness :
  exists st,
    Trials.dynamics_steps 200 800 0 1 (Trials.trial_start 50 2.1 [far; near])
    = Ok st
    /\ map focus (Trials.points st) = map focus [far; near]
    /\ forall p, p ∈ Trials.points st -> focus p = (0, 0).
Proof.
  destruct far_near_first_step as [power Hrun].
  eexists. split; [exact Hrun|].
  exact (relaxation_keeps_foci drawn 0 2 800 200 [far; near] 200 800 50 2.1
           0 1 _ drawn_start Hrun).
Defined.


(** ** Division by the norm of the force *)

Lemma tentative_raises (magnitude repulse repulse_d radius : R) (i : nat)
    (points : list Point) (p : Point) :
  Trials.sum_forces i points repulse repulse_d radius = Ok (0, 0) ->
  Trials.tentative magnitude repulse repulse_d radius points i p
  = Raise ZeroDivisionError.
Proof.
  intros Hzero. unfold Trials.tentative. rewrite Hzero. run.
  rewrite pdiv_zero; [done|]. by apply norm_zero.
Qed.

(** C10.  The tentative move of a point divides by the norm of its net
    force without a guard: it is defined exactly when the point is at a
    nonzero distance of its focus and its net force is not the zero vector.
    When attraction and repulsion cancel, the move raises
    [ZeroDivisionError] and the whole step raises: no rollback takes
    place. *)
Theorem update_defined_iff_force_nonzero
    (magnitude repulse repulse_d radius : R) (arena_size : Z)
    (points : list Point) (i : nat) (p : Point) :
  points !! i = Some p ->
  ((exists moved,
       Trials.tentative magnitude repulse repulse_d radius points i p
       = Ok moved)
   <-> focus_distance p <> 0
       /\ exists f, Trials.sum_forces i points repulse repulse_d radius = Ok f
                    /\ f <> (0, 0))
  /\ (Trials.sum_forces i points repulse repulse_d radius = Ok (0, 0) ->
      Trials.tentative magnitude repulse repulse_d radius points i p
      = Raise ZeroDivisionError
      /\ exists e,
          Trials.move_all magnitude repulse repulse_d radius arena_size points
          = Raise e).
Proof.
  intros Hp. split.
  - rewrite tentative_defined. split.
    + intros (f & Hf & Hnz). split; [|by exists f].
      apply (sum_forces_defined repulse repulse_d radius i points p Hp).
      by exists f.
    + by intros [_ Hf].
  - intros Hzero. split; [by apply tentative_raises|].
    by eapply move_all_raises.
Qed.

Lemma top_forces_cancel :
  Trials.sum_forces 0 [top; west; east] 1 2.1 200 = Ok (0, 0).
Proof.
  unfold Trials.sum_forces, pindex, top, west, east.
  cbn [lookup list_lookup]. run. unfold sqfocus. run.
  rewrite (sqrt_is _ 1000) by lra.
  rewrite !pdiv_ok by lra. run.
  cbn [Trials.repulsion]. decide_reals. unfold sqdist. run.
  rewrite !Rabs_pos_eq by first [apply sqrt_pos | lra].
  rewrite !bool_decide_eq_true_2 by (apply sqrt_below; lra).
  rewrite !pdiv_ok by lra. run.
  f_equal. f_equal; lra.
Qed.

Lemma top_west_east_accepted :
  Trials.in_violation_full [top; west; east] 200 1200 = Ok false.
Proof.
  unfold top, west, east. validator_checks. cbn [any_raising].
  blocked_scan. distance_checks. blocked_scan. distance_checks.
  blocked_scan. distance_checks. done.
Qed.

Lemma update_defined_iff_force_nonzero_witness :
  Trials.in_violation_full [top; west; east] 200 1200 = Ok false
  /\ Trials.tentative 200 1 2.1 200 [top; west; east] 0 top
     = Raise ZeroDivisionError
  /\ exists e,
      Trials.move_all 200 1 2.1 200 1200 [top; west; east] = Raise e.
Proof.
  split; [exact top_west_east_accepted|].
  apply (update_defined_iff_force_nonzero 200 1 2.1 200 1200
           [top; west; east] 0 top); [reflexivity|].
  exact top_forces_cancel.
Defined.


(** ** Which validator looks at the lines of sight *)

Lemma outer_blocked : Trials.is_blocked outer [outer; inner] 200 = Ok true.
Proof.
  unfold outer, inner. blocked_scan. distance_checks. done.
Qed.

Lemma outer_inner_basic : basic_violation [outer; inner] 200 = false.
Proof.
  unfold basic_violation, degenerate, self_intersect,
    Trials.intersect_origin, coincide, overlap, sqdist, outer, inner.
  cbn [any_pair existsb]. run. decide_reals. done.
Qed.

Lemma outer_inner_rejected :
  Trials.in_violation_full [outer; inner] 200 800 = Ok true.
Proof.
  rewrite in_violation_full_checks, outer_inner_basic.
  cbn [any_raising]. rewrite outer_blocked. done.
Qed.

(** C2, as the specification states it, fails: [outer] and [inner] pass
    the coincidence, overlap and origin-disk checks, and the validator of
    the relaxation rejects them, because [inner] stands in the line of
    sight of [outer]. *)
Lemma relaxation_validator_checks_visibility :
  ~ (forall (points : list Point) (radius : R) (arena_size : Z),
        Trials.in_violation_full points radius arena_size
        = Ok (basic_violation points radius)).
Proof.
  intros Hclaim. specialize (Hclaim [outer; inner] 200 800%Z).
  rewrite outer_inner_rejected, outer_inner_basic in Hclaim. discriminate.
Qed.

(** C2, amended.  The validator of the relaxation, run on every step,
    makes the coincidence, overlap and origin-disk checks and then, when
    they pass, the visibility check of every point: what it accepts has no
    blocked point.  It is the validator of the constructive variant that
    makes no visibility check: its verdict depends on the centres only,
    not on the foci. *)
Theorem visibility_is_checked_by_the_relaxation_validator
    (points points' : list Point) (radius : R) (arena_size : Z) :
  Trials.in_violation_full points radius arena_size
  = (if basic_violation points radius then Ok true
     else any_raising (fun p => Trials.is_blocked p points radius) points)
  /\ (Trials.in_violation_full points radius arena_size = Ok false ->
      forall p, p ∈ points -> Trials.is_blocked p points radius = Ok false)
  /\ (map centre points = map centre points' ->
      LineRandom.in_violation points radius arena_size
      = LineRandom.in_violation points' radius arena_size).
Proof.
  split; [apply in_violation_full_checks|]. split.
  - intros Hacc p Hp.
    apply in_violation_full_false in Hacc as (_ & _ & _ & Hvis).
    by apply (any_raising_false _ _ Hvis).
  - apply in_violation_centres.
Qed.

Lemma visibility_is_checked_by_the_relaxation_validator_witness :
  (forall p, p ∈ [far; near] -> Trials.is_blocked p [far; near] 200 = Ok false)
  /\ LineRandom.in_violation [outer; inner] 200 800
     = LineRandom.in_violation
         [mkPoint 1000 1000 1000 0; mkPoint 500 500 500 0] 200 800.
Proof.
  pose proof (visibility_is_checked_by_the_relaxation_validator
                [far; near] [far; near] 200 800) as (_ & Hvis & _).
  pose proof (visibility_is_checked_by_the_relaxation_validator
                [outer; inner]
                [mkPoint 1000 1000 1000 0; mkPoint 500 500 500 0] 200 800)
    as (_ & _ & Hcentres).
  split; [exact (Hvis far_near_accepted)|exact (Hcentres eq_refl)].
Defined.

(** ** What an accepted configuration satisfies *)

(** C5.  In a configuration that the validator of a variant accepts, any
    two distinct points have squared centre distance at least
    [4 * radius ^ 2], and every point satisfies the boundary predicate of
    the variant: [y >= radius] in the half plane,
    [x ^ 2 + y ^ 2 >= radius ^ 2] around the origin disk. *)
Theorem accepted_configuration_invariants (v : Variant) (points : list Point)
    (radius : R) (arena_size : Z) :
  accepted v points radius arena_size ->
  (forall (i j : nat) p q,
      i <> j -> points !! i = Some p -> points !! j = Some q ->
      sqdist p q >= 4 * radius ^ 2)
  /\ (forall p, p ∈ points -> boundary_ok v radius p).
Proof.
  destruct v; cbn [accepted boundary_ok]; intros Hacc.
  - apply in_violation_false in Hacc as (_ & Hself & Hline).
    split; [by apply self_intersect_false|].
    intros p Hp. pose proof (existsb_false_elem _ _ p Hline Hp) as Hb.
    apply bool_decide_eq_false in Hb. lra.
  - apply in_violation_full_false in Hacc as (_ & Hself & Horigin & _).
    split; [by apply self_intersect_false|].
    intros p Hp. pose proof (existsb_false_elem _ _ p Horigin Hp) as Hb.
    apply bool_decide_eq_false in Hb. lra.
Qed.

Lemma outer_inner_half_plane :
  LineRandom.in_violation [outer; inner] 200 800 = false.
Proof.
  unfold LineRandom.in_violation, degenerate, self_intersect,
    LineRandom.intersect_origin_line, coincide, overlap, sqdist, outer, inner.
  cbn [any_pair existsb]. run. decide_reals. done.
Qed.

Lemma accepted_configuration_invariants_witness :
  ((forall (i j : nat) p q,
       i <> j -> [outer; inner] !! i = Some p -> [outer; inner] !! j = Some q ->
       sqdist p q >= 4 * 200 ^ 2)
   /\ (forall p, p ∈ [outer; inner] -> boundary_ok HalfPlane 200 p))
  /\ ((forall (i j : nat) p q,
         i <> j -> [far; near] !! i = Some p -> [far; near] !! j = Some q ->
         sqdist p q >= 4 * 200 ^ 2)
      /\ (forall p, p ∈ [far; near] -> boundary_ok OriginDisk 200 p)).
Proof.
  split.
  - apply (accepted_configuration_invariants HalfPlane [outer; inner] 200 800).
    exact outer_inner_half_plane.
  - apply (accepted_configuration_invariants OriginDisk [far; near] 200 800).
    exact far_near_accepted.
Defined.


(** ** The assignment of foci *)

Section Assign.
Variables (radius : R) (arena_size : Z) (max_x min_x : R).
Variable points : list Point.

#[local] Abbreviation scan := (LineRandom.scan_point radius arena_size max_x min_x).
#[local] Abbreviation loop :=
  (LineRandom.assign_loop radius arena_size max_x min_x points).

Lemma assign_loop_failure (todo : list Point) :
  forall (i : nat) (new_points pts : list Point),
    loop i todo new_points = Ok (false, pts) -> pts = points.
Proof.
  induction todo as [|p todo IH]; intros i new_points pts Hloop;
    [discriminate|].
  cbn [LineRandom.assign_loop] in Hloop.
  apply bind_Ok_inv in Hloop as ([can_adjust new_points'] & _ & Hloop).
  destruct can_adjust; [by eapply IH|]. by injection Hloop as <-.
Qed.

Lemma assign_from_reaches (i : nat) (new_points : list Point) :
  reaches radius arena_size max_x min_x points i new_points ->
  LineRandom.assign_foci radius arena_size max_x min_x points
  = loop i (drop i points) new_points.
Proof.
  induction 1 as [|i new_points new_points' _ IH Hi Hscan]; [done|].
  rewrite IH.
  destruct (lookup_lt_is_Some_2 points i Hi) as [p Hp].
  rewrite (drop_S _ _ _ Hp). cbn [LineRandom.assign_loop].
  rewrite Hscan. done.
Qed.

Lemma assign_fails_at (i : nat) (new_points new_points' : list Point) :
  reaches radius arena_size max_x min_x points i new_points ->
  (i < length points)%nat ->
  scan i new_points = Ok (false, new_points') ->
  LineRandom.assign_foci radius arena_size max_x min_x points
  = Ok (false, points).
Proof.
  intros Hreach Hi Hscan. rewrite (assign_from_reaches _ _ Hreach).
  destruct (lookup_lt_is_Some_2 points i Hi) as [p Hp].
  rewrite (drop_S _ _ _ Hp). cbn [LineRandom.assign_loop].
  rewrite Hscan. done.
Qed.

(** A point whose every candidate focus is out of the lane is not
    adjusted, and the scan leaves [new_points] as it found it. *)
Lemma scan_sides_out_of_lane (i : nat) (d : Z) (new_points : list Point)
    (q : Point) (sides : list Z) :
  new_points !! i = Some q ->
  (forall side, side ∈ sides ->
     max_x < px q + IZR (side * d) \/ px q + IZR (side * d) < min_x) ->
  LineRandom.scan_sides radius max_x min_x i d sides new_points
  = Ok (false, new_points).
Proof.
  intros Hq. induction sides as [|side sides IH]; intros Hout; [done|].
  cbn [LineRandom.scan_sides]. rewrite (pindex_ok _ _ _ Hq). run.
  assert (Hside : bool_decide (max_x < px q + IZR (side * d))
                  || bool_decide (px q + IZR (side * d) < min_x) = true).
  { destruct (Hout side) as [H|H]; [by left|..].
    - by rewrite (bool_decide_eq_true_2 _ H).
    - rewrite (bool_decide_eq_true_2 _ H). apply orb_true_r. }
  rewrite Hside. apply IH. intros s Hs. apply Hout. by right.
Qed.

Lemma scan_offsets_out_of_lane (i : nat) (new_points : list Point)
    (q : Point) (ds : list Z) :
  new_points !! i = Some q ->
  (forall d side, d ∈ ds -> side ∈ [1; -1]%Z ->
     max_x < px q + IZR (side * d) \/ px q + IZR (side * d) < min_x) ->
  LineRandom.scan_offsets radius max_x min_x i ds new_points
  = Ok (false, new_points).
Proof.
  intros Hq. induction ds as [|d ds IH]; intros Hout; [done|].
  cbn [LineRandom.scan_offsets].
  rewrite (scan_sides_out_of_lane i d new_points q) by
    (done || (intros side Hside; apply Hout; [by left|done])).
  run. apply IH. intros d' side Hd Hside. apply Hout; [by right|done].
Qed.

End Assign.

(** C3, amended.  When the scan of some point finds no accepted offset
    and side, [assign_foci] fails the whole configuration: it returns the
    failure flag together with the points it was given, unchanged; the
    reassignments committed for the earlier points are dropped. *)
Theorem failed_assignment_returns_its_input (radius : R) (arena_size : Z)
    (max_x min_x : R) (points : list Point) :
  (forall (i : nat) (new_points new_points' : list Point),
      reaches radius arena_size max_x min_x points i new_points ->
      (i < length points)%nat ->
      LineRandom.scan_point radius arena_size max_x min_x i new_points
      = Ok (false, new_points') ->
      LineRandom.assign_foci radius arena_size max_x min_x points
      = Ok (false, points))
  /\ (forall pts,
        LineRandom.assign_foci radius arena_size max_x min_x points
        = Ok (false, pts) ->
        pts = points).
Proof.
  split.
  - apply assign_fails_at.
  - intros pts. apply assign_loop_failure.
Qed.

Lemma front_scan :
  LineRandom.scan_point 100 800 50 (-50) 0 [front; stray]
  = Ok (true, [front_assigned; stray]).
Proof.
  unfold LineRandom.scan_point. rewrite seqZ_cons by lia.
  cbn [LineRandom.scan_offsets LineRandom.scan_sides].
  unfold pindex, front, stray, front_assigned. cbn [lookup list_lookup]. run.
  change (1 * 0)%Z with 0%Z. decide_reals. run.
  change (<[0%nat:=?p]> [?a; ?b]) with [p; b].
  unfold LineRandom.is_blocked. run. rewrite pdiv_ok by lra. run.
  cbn [insert list_insert any_raising]. unfold LineRandom.blocks. run.
  decide_reals. run. do 3 f_equal. f_equal. lra.
Qed.

Lemma stray_scan :
  LineRandom.scan_point 100 800 50 (-50) 1 [front_assigned; stray]
  = Ok (false, [front_assigned; stray]).
Proof.
  apply (scan_offsets_out_of_lane 100 50 (-50) 1 _ stray); [done|].
  intros d side Hd Hside. apply elem_of_seqZ in Hd. left.
  assert (Hbound : (-800 < side * d)%Z).
  { apply elem_of_cons in Hside as [->|Hside]; [lia|].
    apply list_elem_of_singleton in Hside as ->. lia. }
  apply IZR_lt in Hbound. unfold stray. cbn [px]. lra.
Qed.

Lemma front_reached :
  reaches 100 800 50 (-50) [front; stray] 1 [front_assigned; stray].
Proof.
  apply (reaches_next _ _ _ _ _ 0 [front; stray]);
    [apply reaches_start|cbn; lia|exact front_scan].
Qed.

Lemma failed_assignment_returns_its_input_witness :
  LineRandom.assign_foci 100 800 50 (-50) [front; stray]
  = Ok (false, [front; stray]).
Proof.
  destruct (failed_assignment_returns_its_input 100 800 50 (-50)
              [front; stray]) as [Hfail _].
  apply (Hfail 1%nat [front_assigned; stray] [front_assigned; stray]);
    [exact front_reached|cbn; lia|exact stray_scan].
Defined.

(** C3, as the specification states it, fails: the scan of [front] commits
    the focus [(0, 0)], the scan of [stray] finds nothing, and the points
    that come back with the failure flag have [front] with the focus it
    came with. *)
Lemma failed_assignment_drops_reassignments :
  ~ (forall (radius : R) (arena_size : Z) (max_x min_x : R)
            (points : list Point) (i : nat)
            (new_points new_points' : list Point),
        reaches radius arena_size max_x min_x points i new_points ->
        (i < length points)%nat ->
        LineRandom.scan_point radius arena_size max_x min_x i new_points
        = Ok (false, new_points') ->
        exists pts,
          LineRandom.assign_foci radius arena_size max_x min_x points
          = Ok (false, pts)
          /\ forall j : nat, (j < i)%nat -> pts !! j = new_points !! j).
Proof.
  intros Hclaim.
  destruct (Hclaim 100 800%Z 50 (-50) [front; stray] 1%nat
              [front_assigned; stray] [front_assigned; stray]
              front_reached ltac:(cbn; lia) stray_scan)
    as (pts & Hpts & Hcarry).
  rewrite (assign_fails_at _ _ _ _ _ _ _ _ front_reached ltac:(cbn; lia)
             stray_scan) in Hpts.
  injection Hpts as <-. specialize (Hcarry 0%nat ltac:(lia)).
  cbn in Hcarry. injection Hcarry. intros. lra.
Qed.


(** ** The angled-stack layout *)

Lemma PI_above : 3.14159 < PI.
Proof.
  pose proof (PI_2_3_7_ineq 2) as [Hlow _].
  unfold sum_f_R0, tg_alt, PI_2_3_7_tg, Ratan_seq in Hlow.
  cbn in Hlow. lra.
Qed.

Lemma angle_step (angle r : R) :
  0 <= angle < 3.14159 / 2 -> 0 <= r < 1 ->
  0 <= angle + r * (3.14159 / 2 - angle) < 3.14159 / 2.
Proof. intros Ha Hr. split; nra. Qed.

Lemma cos_positive (angle : R) : 0 <= angle < 3.14159 / 2 -> 0 < cos angle.
Proof.
  intros Ha. pose proof PI_above. apply cos_gt_0; lra.
Qed.

Lemma row_count_app (y : R) (l1 l2 : list Point) :
  row_count y (l1 ++ l2) = (row_count y l1 + row_count y l2)%nat.
Proof. unfold row_count. by rewrite filter_app, length_app. Qed.

Lemma row_count_row (y : R) (arena_size radius num_stacks x_per_stack : Z)
    (curr_x curr_y : R) :
  row_count y (LineRandom.angled_row arena_size radius num_stacks x_per_stack
                 curr_x curr_y)
  = if decide (curr_y = y) then Z.to_nat num_stacks else 0%nat.
Proof.
  unfold LineRandom.angled_row, row_count.
  rewrite <- (length_seqZ 0 num_stacks).
  induction (seqZ 0 num_stacks) as [|n l IH]; [by case_decide|].
  cbn [map]. rewrite filter_cons. cbn [py].
  destruct (decide (curr_y = y)); cbn [length]; by rewrite IH.
Qed.

Section Rows.
Variables (rs : RandomSource) (arena_size radius num_stacks x_per_stack : Z).
Hypothesis rs_ok : source_ok rs.
Hypothesis radius_pos : (0 < radius)%Z.

Lemma row_count_rows (y : R) (rows : nat) :
  forall (k : nat) (angle curr_x curr_y : R),
    row_count y (LineRandom.angled_rows rs arena_size radius num_stacks
                   x_per_stack rows k angle curr_x curr_y)
    = (Z.to_nat num_stacks
       * length (filter (fun h => h = y)
                   (row_heights rs radius rows k angle curr_y)))%nat.
Proof.
  induction rows as [|rows IH]; intros k angle curr_x curr_y.
  - cbn. lia.
  - cbn [LineRandom.angled_rows row_heights].
    rewrite row_count_app, row_count_row, IH, filter_cons.
    destruct (decide (curr_y = y)); cbn [length]; lia.
Qed.

Lemma rows_on_heights (rows : nat) :
  forall (k : nat) (angle curr_x curr_y : R) (p : Point),
    p ∈ LineRandom.angled_rows rs arena_size radius num_stacks x_per_stack
          rows k angle curr_x curr_y ->
    py p ∈ row_heights rs radius rows k angle curr_y.
Proof.
  induction rows as [|rows IH]; intros k angle curr_x curr_y p Hp.
  - by apply elem_of_nil in Hp.
  - cbn [LineRandom.angled_rows row_heights] in *.
    apply elem_of_app in Hp as [Hp|Hp].
    + unfold LineRandom.angled_row in Hp.
      change (map ?f ?l) with (f <$> l) in Hp.
      apply list_elem_of_fmap in Hp as (n & -> & _). by left.
    + right. by eapply IH.
Qed.

Lemma length_rows (rows : nat) :
  forall (k : nat) (angle curr_x curr_y : R),
    length (LineRandom.angled_rows rs arena_size radius num_stacks
              x_per_stack rows k angle curr_x curr_y)
    = (rows * Z.to_nat num_stacks)%nat.
Proof.
  induction rows as [|rows IH]; intros k angle curr_x curr_y; [done|].
  cbn [LineRandom.angled_rows]. rewrite length_app, IH.
  unfold LineRandom.angled_row. rewrite length_map, length_seqZ. lia.
Qed.

Lemma length_heights (rows : nat) :
  forall (k : nat) (angle curr_y : R),
    length (row_heights rs radius rows k angle curr_y) = rows.
Proof.
  induction rows as [|rows IH]; intros k angle curr_y; [done|].
  cbn [row_heights length]. by rewrite IH.
Qed.

Lemma heights_above (rows : nat) :
  forall (k : nat) (angle curr_y h : R),
    0 <= angle < 3.14159 / 2 ->
    h ∈ row_heights rs radius rows k angle curr_y -> curr_y <= h.
Proof.
  induction rows as [|rows IH]; intros k angle curr_y h Ha Hh.
  - by apply elem_of_nil in Hh.
  - cbn [row_heights] in Hh. apply elem_of_cons in Hh as [->|Hh]; [lra|].
    pose proof (angle_step angle (random rs k) Ha (random_range rs rs_ok k))
      as Ha'.
    apply IH in Hh; [|done].
    pose proof (cos_positive _ Ha'). apply IZR_lt in radius_pos. nra.
Qed.

Lemma heights_distinct (rows : nat) :
  forall (k : nat) (angle curr_y : R),
    0 <= angle < 3.14159 / 2 ->
    NoDup (row_heights rs radius rows k angle curr_y).
Proof.
  induction rows as [|rows IH]; intros k angle curr_y Ha;
    cbn [row_heights]; [constructor|].
  pose proof (angle_step angle (random rs k) Ha (random_range rs rs_ok k))
    as Ha'.
  constructor; [|by apply IH].
  intros Hin. apply heights_above in Hin; [|done].
  pose proof (cos_positive _ Ha'). apply IZR_lt in radius_pos. nra.
Qed.

End Rows.

Lemma count_absent (l : list R) (y : R) :
  y ∉ l -> length (filter (fun h => h = y) l) = 0%nat.
Proof.
  induction l as [|h l IH]; intros Hy; [done|].
  rewrite filter_cons. apply not_elem_of_cons in Hy as [Hne Hy].
  destruct (decide (h = y)) as [->|_]; [done|]. by apply IH.
Qed.

Lemma count_in_distinct (l : list R) (y : R) :
  NoDup l -> y ∈ l -> length (filter (fun h => h = y) l) = 1%nat.
Proof.
  induction 1 as [|h l Hh Hl IH]; intros Hy; [by apply elem_of_nil in Hy|].
  rewrite filter_cons. destruct (decide (h = y)) as [->|Hne].
  - cbn [length]. f_equal. by apply count_absent.
  - apply elem_of_cons in Hy as [->|Hy]; [done|]. by apply IH.
Qed.

(** C7.  With 20 points, radius 100 and arena size 800 the angled-stack
    layout has 5 stacks of 4 points, and whatever the random source draws
    it lays 20 points on 4 distinct row heights, 5 points on each. *)
Theorem angled_init_rows_of_five (rs : RandomSource) :
  source_ok rs ->
  LineRandom.num_stacks_of 800 100 = Ok 5%Z
  /\ LineRandom.num_per_stack_of 20 5 = Ok 4%Z
  /\ exists (pts : list Point) (ys : list R),
      LineRandom.angled_init rs 20 800 100 = Ok pts
      /\ length pts = 20%nat
      /\ length ys = 4%nat
      /\ NoDup ys
      /\ (forall p, p ∈ pts -> py p ∈ ys)
      /\ (forall y, y ∈ ys -> row_count y pts = 5%nat).
Proof.
  intros Hrs. split; [reflexivity|]. split; [reflexivity|].
  eexists. exists (row_heights rs 100 4 0 0 100).
  assert (Hangle : 0 <= 0 < 3.14159 / 2) by lra.
  split; [reflexivity|].
  change (Z.to_nat 4) with 4%nat. change (IZR 100) with 100.
  split; [by rewrite length_rows|].
  split; [by rewrite length_heights|].
  split; [by apply heights_distinct|].
  split; [apply rows_on_heights|].
  intros y Hy. rewrite row_count_rows.
  rewrite count_in_distinct; [done| |done]. by apply heights_distinct.
Qed.

Lemma least_ok : source_ok least.
Proof.
  split; [intros k a b Hab; cbn; lia|intros k; cbn; lra].
Qed.

Lemma angled_init_rows_of_five_witness :
  exists (pts : list Point) (ys : list R),
    LineRandom.angled_init least 20 800 100 = Ok pts
    /\ length pts = 20%nat
    /\ length ys = 4%nat
    /\ NoDup ys
    /\ (forall p, p ∈ pts -> py p ∈ ys)
    /\ (forall y, y ∈ ys -> row_count y pts = 5%nat).
Proof. apply (angled_init_rows_of_five least). exact least_ok. Defined.


(** * Further properties of the two scripts *)

(** ** The distance to a line, in general *)

Lemma slope_norm_positive (m : R) : 0 < m * m + 1.
Proof. nra. Qed.

Lemma perpendicular_distance (m b x y : R) :
  m <> 0 ->
  closest_distance_to_line m b x y
  = Ok (Rabs (m * x - y + b) / sqrt (m * m + 1)).
Proof.
  intros Hm. unfold closest_distance_to_line.
  pose proof (slope_plus_inverse_nonzero m Hm) as Hden.
  pose proof (slope_norm_positive m) as Hpos.
  rewrite !pdiv_ok by done. run. rewrite pdiv_ok by done. run.
  f_equal.
  assert (Hs : 0 < sqrt (m * m + 1)) by (by apply sqrt_lt_R0).
  apply sqrt_is.
  - apply Rmult_le_pos; [apply Rabs_pos|]. left. by apply Rinv_0_lt_compat.
  - assert (Hsq : sqrt (m * m + 1) * sqrt (m * m + 1) = m * m + 1)
      by (apply sqrt_sqrt; lra).
    assert (Habs : Rabs (m * x - y + b) * Rabs (m * x - y + b)
                   = (m * x - y + b) * (m * x - y + b)).
    { rewrite <- Rabs_mult. apply Rabs_pos_eq.
      generalize (m * x - y + b). intros a. nra. }
    transitivity ((m * x - y + b) * (m * x - y + b) / (m * m + 1)).
    + replace (Rabs (m * x - y + b) / sqrt (m * m + 1)
               * (Rabs (m * x - y + b) / sqrt (m * m + 1)))
        with (Rabs (m * x - y + b) * Rabs (m * x - y + b)
              / (sqrt (m * m + 1) * sqrt (m * m + 1))) by (field; lra).
      by rewrite Habs, Hsq.
    + field. split; [done|lra].
Qed.

(** X1.  For a slope [m <> 0], [closest_distance_to_line m b x y] is the
    perpendicular distance [|m x - y + b| / sqrt (m^2 + 1)] between the
    point and the line. *)
Theorem closest_distance_is_perpendicular (m b x y : R) :
  m <> 0 ->
  closest_distance_to_line m b x y
  = Ok (Rabs (m * x - y + b) / sqrt (m * m + 1)).
Proof. apply perpendicular_distance. Qed.

Lemma closest_distance_is_perpendicular_witness :
  closest_distance_to_line 2 1 3 0 = Ok (Rabs (2 * 3 - 0 + 1) / sqrt (2 * 2 + 1)).
Proof. apply closest_distance_is_perpendicular. lra. Defined.

(** X2.  [closest_distance_to_line] does not handle horizontal lines: it
    returns a distance exactly when the slope is not zero, and raises
    [ZeroDivisionError] when it is. *)
Theorem closest_distance_defined_iff_slope_nonzero (m b x y : R) :
  ((exists d, closest_distance_to_line m b x y = Ok d) <-> m <> 0)
  /\ (m = 0 -> closest_distance_to_line m b x y = Raise ZeroDivisionError).
Proof.
  assert (Hzero : m = 0 ->
                  closest_distance_to_line m b x y = Raise ZeroDivisionError).
  { intros ->. unfold closest_distance_to_line.
    by rewrite (pdiv_zero x 0 eq_refl). }
  split; [|done]. split.
  - intros [d Hd] Hm. rewrite (Hzero Hm) in Hd. discriminate.
  - intros Hm. rewrite perpendicular_distance by done. by eexists.
Qed.

Lemma closest_distance_defined_iff_slope_nonzero_witness :
  closest_distance_to_line 0 1 3 7 = Raise ZeroDivisionError.
Proof.
  apply (proj2 (closest_distance_defined_iff_slope_nonzero 0 1 3 7)).
  reflexivity.
Defined.


(** ** What the validators accept, exactly *)

Lemma existsb_true_elem {A} (test : A -> bool) (l : list A) :
  existsb test l = true <-> exists a, a ∈ l /\ test a = true.
Proof.
  rewrite existsb_exists. split; intros (a & Ha & Hta); exists a;
    (split; [by apply list_elem_of_In|done]).
Qed.

Lemma any_pair_true {A} (test : A -> A -> bool) (l : list A) :
  any_pair test l = true
  <-> exists (i j : nat) p q,
        (i < j)%nat /\ l !! i = Some p /\ l !! j = Some q
        /\ test p q = true.
Proof.
  split.
  - induction l as [|a l IH]; [done|]. cbn [any_pair].
    intros Hany. apply orb_true_iff in Hany as [Hhead|Htail].
    + apply existsb_true_elem in Hhead as (q & Hq & Htest).
      apply list_elem_of_lookup_1 in Hq as [j Hj].
      by exists 0%nat, (S j), a, q; repeat split; [lia|..].
    + destruct (IH Htail) as (i & j & p & q & Hij & Hi & Hj & Htest).
      by exists (S i), (S j), p, q; repeat split; [lia|..].
  - intros (i & j & p & q & Hij & Hi & Hj & Htest).
    destruct (any_pair test l) eqn:Hany; [done|].
    by rewrite (any_pair_false _ _ Hany i j p q Hij Hi Hj) in Htest.
Qed.

Lemma self_intersect_true (points : list Point) (radius : R) :
  self_intersect points radius = true
  <-> exists (i j : nat) p q,
        i <> j /\ points !! i = Some p /\ points !! j = Some q
        /\ sqdist p q < 4 * radius ^ 2.
Proof.
  unfold self_intersect. rewrite any_pair_true. split.
  - intros (i & j & p & q & Hij & Hi & Hj & Hov).
    exists i, j, p, q. repeat split; [lia|done..|].
    by apply bool_decide_eq_true in Hov.
  - intros (i & j & p & q & Hij & Hi & Hj & Hov).
    assert (Hcase : (i < j)%nat \/ (j < i)%nat) by lia.
    destruct Hcase as [Hlt|Hlt].
    + exists i, j, p, q. repeat split; [done..|].
      by apply bool_decide_eq_true.
    + exists j, i, q, p. repeat split; [done..|].
      apply bool_decide_eq_true. by rewrite sqdist_sym.
Qed.

(** X3.  [self_intersect] answers [True] exactly when two points at
    different indices have their centres closer than [2 * radius], that is
    at squared distance below [4 * radius ^ 2]. *)
Theorem self_intersect_iff_close_pair (points : list Point) (radius : R) :
  self_intersect points radius = true
  <-> exists (i j : nat) p q,
        i <> j /\ points !! i = Some p /\ points !! j = Some q
        /\ sqdist p q < 4 * radius ^ 2.
Proof. apply self_intersect_true. Qed.

Lemma self_intersect_iff_close_pair_witness :
  self_intersect [far_moved; near_moved; near] 200 = true.
Proof.
  apply self_intersect_iff_close_pair.
  exists 1%nat, 2%nat, near_moved, near.
  repeat split; [lia|]. unfold sqdist, near_moved, near. cbn. lra.
Defined.

Lemma degenerate_true (points : list Point) (i j : nat) (p q : Point) :
  i <> j -> points !! i = Some p -> points !! j = Some q ->
  centre p = centre q -> degenerate points = true.
Proof.
  intros Hij Hi Hj [= Hx Hy]. unfold degenerate. apply any_pair_true.
  assert (Hcase : (i < j)%nat \/ (j < i)%nat) by lia.
  destruct Hcase as [Hlt|Hlt].
  - exists i, j, p, q. repeat split; [done..|]. unfold coincide.
    by rewrite !bool_decide_eq_true_2.
  - exists j, i, q, p. repeat split; [done..|]. unfold coincide.
    by rewrite !bool_decide_eq_true_2.
Qed.

(** X4.  A configuration in which two points at different indices have the
    same centre is rejected by both validators, whatever the radius (zero
    and negative radii included) and whatever the foci; the relaxation
    validator answers before any division is made, so it does not raise. *)
Theorem coincident_points_are_rejected (points : list Point) (radius : R)
    (arena_size : Z) (i j : nat) (p q : Point) :
  i <> j -> points !! i = Some p -> points !! j = Some q ->
  centre p = centre q ->
  LineRandom.in_violation points radius arena_size = true
  /\ Trials.in_violation_full points radius arena_size = Ok true.
Proof.
  intros Hij Hi Hj Hc.
  pose proof (degenerate_true points i j p q Hij Hi Hj Hc) as Hdeg.
  unfold LineRandom.in_violation, Trials.in_violation_full.
  by rewrite Hdeg.
Qed.

Lemma coincident_points_are_rejected_witness :
  LineRandom.in_violation [far; mkPoint 600 800 5 5] 0 800 = true
  /\ Trials.in_violation_full [far; mkPoint 600 800 5 5] 0 800 = Ok true.
Proof.
  apply (coincident_points_are_rejected _ 0 800 0 1 far (mkPoint 600 800 5 5));
    [lia|reflexivity..].
Defined.

(** X5.  The validator of the constructive search accepts a configuration
    exactly when no two points at different indices share their centre or
    are closer than [2 * radius], and every point is at height at least
    [radius]: it rejects nothing else. *)
Theorem in_violation_accepts_exactly (points : list Point) (radius : R)
    (arena_size : Z) :
  LineRandom.in_violation points radius arena_size = false
  <-> (forall (i j : nat) p q,
          i <> j -> points !! i = Some p -> points !! j = Some q ->
          centre p <> centre q /\ sqdist p q >= 4 * radius ^ 2)
      /\ (forall p, p ∈ points -> py p >= radius).
Proof.
  split.
  - intros Hacc.
    destruct (in_violation_false _ _ _ Hacc) as (Hdeg & Hself & Hline).
    split.
    + intros i j p q Hij Hi Hj. split.
      * intros Hc.
        by rewrite (degenerate_true points i j p q Hij Hi Hj Hc) in Hdeg.
      * by apply (self_intersect_false points radius Hself i j).
    + intros p Hp. pose proof (existsb_false_elem _ _ p Hline Hp) as Hb.
      apply bool_decide_eq_false in Hb. lra.
  - intros [Hpairs Hline]. unfold LineRandom.in_violation.
    assert (Hdeg : degenerate points = false).
    { destruct (degenerate points) eqn:Hdeg; [|done].
      apply any_pair_true in Hdeg as (i & j & p & q & Hij & Hi & Hj & Hc).
      unfold coincide in Hc. apply andb_true_iff in Hc as [Hx Hy].
      apply bool_decide_eq_true in Hx, Hy.
      destruct (Hpairs i j p q) as [Hne _]; [lia|done..|].
      exfalso. apply Hne. unfold centre. by rewrite Hx, Hy. }
    assert (Hself : self_intersect points radius = false).
    { destruct (self_intersect points radius) eqn:Hself; [|done].
      apply self_intersect_true in Hself
        as (i & j & p & q & Hij & Hi & Hj & Hov).
      destruct (Hpairs i j p q) as [_ Hge]; [done..|]. lra. }
    assert (Hlow : LineRandom.intersect_origin_line points radius = false).
    { destruct (LineRandom.intersect_origin_line points radius) eqn:Hlow;
        [|done].
      apply existsb_true_elem in Hlow as (p & Hp & Hb).
      apply bool_decide_eq_true in Hb. specialize (Hline p Hp). lra. }
    by rewrite Hdeg, Hself, Hlow.
Qed.

Lemma in_violation_accepts_exactly_witness :
  (forall (i j : nat) p q,
      i <> j -> [outer; inner] !! i = Some p -> [outer; inner] !! j = Some q ->
      centre p <> centre q /\ sqdist p q >= 4 * 200 ^ 2)
  /\ (forall p, p ∈ [outer; inner] -> py p >= 200).
Proof.
  apply (in_violation_accepts_exactly [outer; inner] 200 800).
  exact outer_inner_half_plane.
Defined.


(** ** The visibility oracle *)

Lemma any_raising_total {A} (test : A -> result bool) (f : A -> bool)
    (l : list A) :
  (forall a, a ∈ l -> test a = Ok (f a)) ->
  any_raising test l = Ok (existsb f l).
Proof.
  induction l as [|x l IH]; intros Htest; [done|].
  cbn [any_raising existsb]. rewrite (Htest x) by left. run.
  destruct (f x); [done|]. apply IH. intros a Ha. apply Htest. by right.
Qed.

Lemma existsb_never {A} (l : list A) : existsb (fun _ => false) l = false.
Proof. induction l as [|x l IH]; [done|exact IH]. Qed.

Lemma sight_slope_nonzero (p1 : Point) :
  px p1 - fx p1 + 0.01 <> 0 -> py p1 - fy p1 + 0.01 <> 0 ->
  sight_slope p1 <> 0.
Proof.
  intros Hx Hy Hz. apply Hy. unfold sight_slope in Hz.
  replace (py p1 - fy p1 + 0.01)
    with ((py p1 - fy p1 + 0.01) / (px p1 - fx p1 + 0.01)
          * (px p1 - fx p1 + 0.01)) by (by field).
  rewrite Hz. ring.
Qed.

Lemma obstructs_true (skip : Point -> Point -> bool) (radius : R)
    (p1 p2 : Point) :
  obstructs skip radius p1 p2 = true
  <-> p2 <> p1 /\ skip p1 p2 = false /\ sight_distance p1 p2 < radius.
Proof.
  unfold obstructs. rewrite !andb_true_iff, !negb_true_iff.
  rewrite bool_decide_eq_false, bool_decide_eq_true. tauto.
Qed.

Lemma radial_is_blocked_total (p1 : Point) (points : list Point)
    (radius : R) :
  px p1 - fx p1 + 0.01 <> 0 -> py p1 - fy p1 + 0.01 <> 0 ->
  Trials.is_blocked p1 points radius
  = Ok (existsb (obstructs Trials.behind radius p1) points).
Proof.
  intros Hx Hy. pose proof (sight_slope_nonzero p1 Hx Hy) as Hm.
  unfold Trials.is_blocked. rewrite pdiv_ok by done. run.
  apply any_raising_total. intros p2 _.
  unfold Trials.blocks, obstructs.
  destruct (bool_decide (p2 = p1)); [done|].
  destruct (Trials.behind p1 p2); [done|].
  fold (sight_slope p1). fold (sight_intercept p1).
  rewrite perpendicular_distance by done. done.
Qed.

Lemma half_plane_is_blocked_total (p1 : Point) (points : list Point)
    (radius : R) :
  px p1 - fx p1 + 0.01 <> 0 -> py p1 - fy p1 + 0.01 <> 0 ->
  LineRandom.is_blocked p1 points radius
  = Ok (existsb (obstructs above radius p1) points).
Proof.
  intros Hx Hy. pose proof (sight_slope_nonzero p1 Hx Hy) as Hm.
  unfold LineRandom.is_blocked. rewrite pdiv_ok by done. run.
  apply any_raising_total. intros p2 _.
  unfold LineRandom.blocks, obstructs, above.
  destruct (bool_decide (p2 = p1)); [done|].
  destruct (bool_decide (py p1 < py p2)); [done|].
  fold (sight_slope p1). fold (sight_intercept p1).
  rewrite perpendicular_distance by done. done.
Qed.

(** X6.  Radial policy.  When the line of sight of [p1] is neither
    vertical nor horizontal after the 0.01 offsets, [is_blocked] returns an
    answer, and the answer is [True] exactly when some other point, not
    farther from the origin than [p1] and not in the diagonally opposite
    quadrant, has its centre closer than [radius] to the whole line through
    [p1] with the slope of the line of sight (not only to the segment that
    ends at the focus). *)
Theorem radial_is_blocked_iff_obstructed (p1 : Point) (points : list Point)
    (radius : R) :
  px p1 - fx p1 + 0.01 <> 0 -> py p1 - fy p1 + 0.01 <> 0 ->
  exists answer,
    Trials.is_blocked p1 points radius = Ok answer
    /\ (answer = true
        <-> exists p2,
              p2 ∈ points /\ p2 <> p1 /\ Trials.behind p1 p2 = false
              /\ sight_distance p1 p2 < radius).
Proof.
  intros Hx Hy. eexists. split; [by apply radial_is_blocked_total|].
  rewrite existsb_true_elem. split.
  - intros (p2 & Hp2 & Hob). exists p2. split; [done|].
    by apply obstructs_true.
  - intros (p2 & Hp2 & Hob). exists p2. split; [done|].
    by apply obstructs_true.
Qed.

Lemma radial_is_blocked_iff_obstructed_witness :
  exists answer,
    Trials.is_blocked outer [outer; inner] 200 = Ok answer
    /\ (answer = true
        <-> exists p2,
              p2 ∈ [outer; inner] /\ p2 <> outer
              /\ Trials.behind outer p2 = false
              /\ sight_distance outer p2 < 200).
Proof.
  apply radial_is_blocked_iff_obstructed; unfold outer; cbn; lra.
Defined.

(** X7.  Half-plane policy.  Under the same two conditions, [is_blocked]
    returns an answer, and the answer is [True] exactly when some other
    point, not strictly above [p1], has its centre closer than [radius] to
    the whole line through [p1] with the slope of the line of sight. *)
Theorem half_plane_is_blocked_iff_obstructed (p1 : Point)
    (points : list Point) (radius : R) :
  px p1 - fx p1 + 0.01 <> 0 -> py p1 - fy p1 + 0.01 <> 0 ->
  exists answer,
    LineRandom.is_blocked p1 points radius = Ok answer
    /\ (answer = true
        <-> exists p2,
              p2 ∈ points /\ p2 <> p1 /\ ~ py p1 < py p2
              /\ sight_distance p1 p2 < radius).
Proof.
  intros Hx Hy. eexists. split; [by apply half_plane_is_blocked_total|].
  rewrite existsb_true_elem. split.
  - intros (p2 & Hp2 & Hob). exists p2. split; [done|].
    apply obstructs_true in Hob as (Hne & Hab & Hd).
    by apply bool_decide_eq_false in Hab.
  - intros (p2 & Hp2 & Hne & Hab & Hd). exists p2. split; [done|].
    apply obstructs_true. split; [done|]. split; [|done].
    by apply bool_decide_eq_false.
Qed.

Lemma half_plane_is_blocked_iff_obstructed_witness :
  exists answer,
    LineRandom.is_blocked front_assigned [front_assigned; stray] 100
    = Ok answer
    /\ (answer = true
        <-> exists p2,
              p2 ∈ [front_assigned; stray] /\ p2 <> front_assigned
              /\ ~ py front_assigned < py p2
              /\ sight_distance front_assigned p2 < 100).
Proof.
  apply half_plane_is_blocked_iff_obstructed; unfold front_assigned; cbn; lra.
Defined.

(** X8.  A point that every other point is behind is never blocked,
    whatever the radius: in the constructive search a point strictly below
    all the others, in the relaxation a point strictly nearer to the origin
    than all the others.  Only the run of the line of sight has to be
    nonzero after the 0.01 offset. *)
Theorem unobstructed_points_are_not_blocked (p1 : Point)
    (points : list Point) (radius : R) :
  px p1 - fx p1 + 0.01 <> 0 ->
  ((forall p2, p2 ∈ points -> p2 = p1 \/ py p1 < py p2) ->
   LineRandom.is_blocked p1 points radius = Ok false)
  /\ ((forall p2, p2 ∈ points ->
         p2 = p1 \/ px p1 ^ 2 + py p1 ^ 2 < px p2 ^ 2 + py p2 ^ 2) ->
      Trials.is_blocked p1 points radius = Ok false).
Proof.
  intros Hx. split; intros Hbehind.
  - unfold LineRandom.is_blocked. rewrite pdiv_ok by done. run.
    rewrite (any_raising_total _ (fun _ => false)).
    + f_equal. apply existsb_never.
    + intros p2 Hp2. unfold LineRandom.blocks.
      destruct (Hbehind p2 Hp2) as [->|Hlt].
      * by rewrite bool_decide_eq_true_2.
      * destruct (bool_decide (p2 = p1)); [done|].
        by rewrite (bool_decide_eq_true_2 _ Hlt).
  - unfold Trials.is_blocked. rewrite pdiv_ok by done. run.
    rewrite (any_raising_total _ (fun _ => false)).
    + f_equal. apply existsb_never.
    + intros p2 Hp2. unfold Trials.blocks, Trials.behind.
      destruct (Hbehind p2 Hp2) as [->|Hlt].
      * by rewrite bool_decide_eq_true_2.
      * destruct (bool_decide (p2 = p1)); [done|].
        rewrite (bool_decide_eq_true_2
                   (py p1 ^ 2 + px p1 ^ 2 < px p2 ^ 2 + py p2 ^ 2))
          by lra.
        done.
Qed.

Lemma unobstructed_points_are_not_blocked_witness :
  LineRandom.is_blocked front_assigned [front_assigned; stray] 100 = Ok false
  /\ Trials.is_blocked near [far; near] 200 = Ok false.
Proof.
  split.
  - apply (unobstructed_points_are_not_blocked front_assigned
             [front_assigned; stray] 100);
      [unfold front_assigned; cbn; lra|].
    intros p2 Hp2. apply elem_of_cons in Hp2 as [->|Hp2]; [by left|].
    apply list_elem_of_singleton in Hp2 as ->. right.
    unfold front_assigned, stray. cbn. lra.
  - apply (unobstructed_points_are_not_blocked near [far; near] 200);
      [unfold near; cbn; lra|].
    intros p2 Hp2. apply elem_of_cons in Hp2 as [->|Hp2].
    + right. unfold far, near. cbn. lra.
    + apply list_elem_of_singleton in Hp2 as ->. by left.
Defined.




(** ** The relaxation, step by step *)

Lemma norm_square (f_x f_y : R) :
  sqrt (f_x ^ 2 + f_y ^ 2) * sqrt (f_x ^ 2 + f_y ^ 2) = f_x ^ 2 + f_y ^ 2.
Proof.
  apply sqrt_sqrt. apply Rplus_le_le_0_compat; apply pow2_ge_0.
Qed.

(** X10.  Whatever the forces, a tentative move displaces the point by
    exactly the step magnitude: the squared distance between the tentative
    position and the position before is [magnitude ^ 2]. *)
Theorem tentative_move_has_step_length
    (magnitude repulse repulse_d radius : R) (points : list Point) (i : nat)
    (p moved : Point) :
  Trials.tentative magnitude repulse repulse_d radius points i p = Ok moved ->
  sqdist moved p = magnitude ^ 2.
Proof.
  unfold Trials.tentative. intros Hm.
  apply bind_Ok_inv in Hm as ([f_x f_y] & _ & Hm).
  apply bind_Ok_inv in Hm as (dx & Hdx & Hm).
  apply bind_Ok_inv in Hm as (dy & Hdy & Hm).
  injection Hm as <-.
  apply pdiv_Ok_inv in Hdx as [Hnorm ->]. apply pdiv_Ok_inv in Hdy as [_ ->].
  unfold sqdist. cbn [px py].
  pose proof (norm_square f_x f_y) as Hsq.
  set (n := sqrt (f_x ^ 2 + f_y ^ 2)) in *.
  replace ((px p + magnitude * f_x / n - px p) ^ 2
           + (py p + magnitude * f_y / n - py p) ^ 2)
    with (magnitude ^ 2 * (f_x ^ 2 + f_y ^ 2) / (n * n)) by (by field).
  rewrite <- Hsq. by field.
Qed.

Lemma tentative_move_has_step_length_witness :
  sqdist far_moved far = 200 ^ 2.
Proof.
  exact (tentative_move_has_step_length 200 50 2.1 200 [far; near] 0
           far far_moved far_tentative).
Defined.

Section Validity.
Variables (magnitude repulse repulse_d radius : R) (arena_size : Z).
Variable points : list Point.

Lemma move_loop_valid (todo : list Point) :
  forall (i : nat) (np res : list Point),
    drop i np = todo ->
    Trials.in_violation_full np radius arena_size = Ok false ->
    Trials.move_loop magnitude repulse repulse_d radius arena_size points
      i todo np = Ok res ->
    Trials.in_violation_full res radius arena_size = Ok false.
Proof.
  induction todo as [|p todo IH]; intros i np res Hnp Hvalid Hloop.
  - by injection Hloop as <-.
  - apply drop_cons_inv in Hnp as [Hnpi Hnp].
    cbn [Trials.move_loop] in Hloop.
    apply bind_Ok_inv in Hloop as (moved & _ & Hloop).
    apply bind_Ok_inv in Hloop as (v & Hv & Hloop).
    assert (Hi : (i < length np)%nat) by (by eapply lookup_lt_Some).
    destruct v.
    + rewrite (rollback_restores np i p moved Hnpi) in Hloop.
      by apply (IH (S i) np res).
    + apply (IH (S i) (<[i:=moved]> np) res); [|done..].
      by rewrite drop_insert_lt by lia.
Qed.

Lemma move_all_valid (res : list Point) :
  Trials.in_violation_full points radius arena_size = Ok false ->
  Trials.move_all magnitude repulse repulse_d radius arena_size points
  = Ok res ->
  Trials.in_violation_full res radius arena_size = Ok false.
Proof. intros Hvalid. by apply move_loop_valid. Qed.

End Validity.

Lemma dynamics_step_valid (radius : R) (arena_size : Z) (step : nat)
    (st st' : Trials.TrialState) :
  Trials.in_violation_full (Trials.points st) radius arena_size = Ok false ->
  Trials.dynamics_step radius arena_size step st = Ok st' ->
  Trials.in_violation_full (Trials.points st') radius arena_size = Ok false.
Proof.
  unfold Trials.dynamics_step.
  destruct (Trials.anneal radius step (Trials.repulse_d st) (Trials.repulse st))
    as [[magnitude repulse_d'] repulse'].
  intros Hvalid Hst. apply bind_Ok_inv in Hst as (points' & Hmove & Hst).
  apply bind_Ok_inv in Hst as (power & _ & Hst).
  apply (move_all_valid _ _ _ _ _ _ _ Hvalid) in Hmove.
  case_bool_decide; by injection Hst as <-.
Qed.

(** X11.  The relaxation never leaves an accepted configuration for a
    rejected one: if the configuration a trial starts from is accepted by
    the validator, so is the configuration after any number of steps; in
    particular no two of its points are ever closer than [2 * radius]. *)
Theorem relaxation_keeps_configurations_accepted (radius : R)
    (arena_size : Z) (count : nat) :
  forall (step : nat) (st st' : Trials.TrialState),
    Trials.in_violation_full (Trials.points st) radius arena_size = Ok false ->
    Trials.dynamics_steps radius arena_size step count st = Ok st' ->
    Trials.in_violation_full (Trials.points st') radius arena_size = Ok false
    /\ forall (i j : nat) p q,
        i <> j -> Trials.points st' !! i = Some p ->
        Trials.points st' !! j = Some q ->
        sqdist p q >= 4 * radius ^ 2.
Proof.
  assert (Hsteps : forall (n step : nat) (st st' : Trials.TrialState),
             Trials.in_violation_full (Trials.points st) radius arena_size
             = Ok false ->
             Trials.dynamics_steps radius arena_size step n st = Ok st' ->
             Trials.in_violation_full (Trials.points st') radius arena_size
             = Ok false).
  { induction n as [|n IH]; intros step st st' Hvalid Hrun.
    - by injection Hrun as <-.
    - cbn [Trials.dynamics_steps] in Hrun.
      apply bind_Ok_inv in Hrun as (st1 & Hstep & Hrun).
      apply (IH (S step) st1 st'); [|done].
      by eapply dynamics_step_valid. }
  intros step st st' Hvalid Hrun.
  pose proof (Hsteps count step st st' Hvalid Hrun) as Hvalid'.
  split; [done|].
  apply in_violation_full_false in Hvalid' as (_ & Hself & _).
  by apply self_intersect_false.
Qed.

Lemma relaxation_keeps_configurations_accepted_witness :
  exists st,
    Trials.dynamics_steps 200 800 0 1 (Trials.trial_start 50 2.1 [far; near])
    = Ok st
    /\ Trials.in_violation_full (Trials.points st) 200 800 = Ok false.
Proof.
  destruct far_near_first_step as [power Hrun].
  eexists. split; [exact Hrun|].
  exact (proj1 (relaxation_keeps_configurations_accepted 200 800 1 0
                  (Trials.trial_start 50 2.1 [far; near]) _
                  far_near_accepted Hrun)).
Defined.


(** ** The best configuration of a trial *)

Lemma dynamics_step_best (radius : R) (arena_size : Z) (step : nat)
    (st st' : Trials.TrialState) :
  Trials.power_of radius (Trials.best_points st) = Ok (Trials.best_power st) ->
  Trials.dynamics_step radius arena_size step st = Ok st' ->
  Trials.best_power st <= Trials.best_power st'
  /\ Trials.power_of radius (Trials.best_points st')
     = Ok (Trials.best_power st')
  /\ exists power,
      Trials.power_of radius (Trials.points st') = Ok power
      /\ power <= Trials.best_power st'.
Proof.
  unfold Trials.dynamics_step.
  destruct (Trials.anneal radius step (Trials.repulse_d st) (Trials.repulse st))
    as [[magnitude repulse_d'] repulse'].
  intros Hbest Hst. apply bind_Ok_inv in Hst as (points' & _ & Hst).
  apply bind_Ok_inv in Hst as (power & Hpower & Hst).
  case_bool_decide as Hcmp; injection Hst as <-;
    cbn [Trials.best_power Trials.best_points Trials.points].
  - split; [lra|]. split; [done|]. exists power. split; [done|lra].
  - split; [lra|]. split; [done|]. exists power. split; [done|lra].
Qed.

(** X12.  The best-so-far record of a trial is consistent: through any
    number of steps [best_power] never decreases, [best_points] is a
    configuration whose quality metric is [best_power], and after at least
    one step the metric of the current configuration is at most
    [best_power].  A trial starts with the record [(0, [])], which is
    consistent, the metric of the empty configuration being 0. *)
Theorem best_record_is_consistent (radius : R) (arena_size : Z)
    (count : nat) :
  forall (step : nat) (st st' : Trials.TrialState),
    Trials.power_of radius (Trials.best_points st)
    = Ok (Trials.best_power st) ->
    Trials.dynamics_steps radius arena_size step count st = Ok st' ->
    Trials.best_power st <= Trials.best_power st'
    /\ Trials.power_of radius (Trials.best_points st')
       = Ok (Trials.best_power st')
    /\ (count <> 0%nat ->
        exists power,
          Trials.power_of radius (Trials.points st') = Ok power
          /\ power <= Trials.best_power st').
Proof.
  induction count as [|count IH]; intros step st st' Hbest Hrun.
  - injection Hrun as <-. split; [lra|]. split; [done|]. done.
  - rewrite dynamics_steps_snoc in Hrun.
    apply bind_Ok_inv in Hrun as (st1 & Hrun & Hstep).
    destruct (IH step st st1 Hbest Hrun) as (Hle & Hbest1 & _).
    destruct (dynamics_step_best _ _ _ _ _ Hbest1 Hstep)
      as (Hle' & Hbest' & Hpower).
    split; [lra|]. split; [done|]. by intros _.
Qed.

Lemma best_record_is_consistent_witness :
  exists st,
    Trials.dynamics_steps 200 800 0 1 (Trials.trial_start 50 2.1 [far; near])
    = Ok st
    /\ 0 <= Trials.best_power st
    /\ Trials.power_of 200 (Trials.best_points st)
       = Ok (Trials.best_power st).
Proof.
  destruct far_near_first_step as [power Hrun].
  eexists. split; [exact Hrun|].
  destruct (best_record_is_consistent 200 800 1 0
              (Trials.trial_start 50 2.1 [far; near]) _ eq_refl Hrun)
    as (Hle & Hbest & _).
  split; [exact Hle|exact Hbest].
Defined.

(** ** The annealing, as the code computes it *)

Lemma floordiv_1000_one (x : R) :
  1000 <= x < 2000 -> Trials.floordiv_1000 x = 1.
Proof.
  intros Hx. unfold Trials.floordiv_1000.
  rewrite (Zfloor_eq 1); [done|]. lra.
Qed.

Lemma Rmax_floor_step (x : R) : Rmax 0 (Rmax 0 x - 1) = Rmax 0 (x - 1).
Proof.
  unfold Rmax. repeat destruct (Rle_dec _ _); lra.
Qed.

(** X13.  From step 2000 to step 3999 every step takes one whole unit off
    [repulse], from the value the step before left, and nothing off
    [repulse_d]: a trial entered with [repulse_d, repulse >= 0] runs step
    [s] of that range with [repulse_d] unchanged and with
    [repulse = max(0, repulse - (s - 1999))]. *)
Theorem repulse_loses_a_unit_per_step (radius : R) (step : nat)
    (repulse_d repulse : R) :
  0 <= repulse_d -> 0 <= repulse ->
  (1999 <= Z.of_nat step < 4000)%Z ->
  Trials.annealed radius step repulse_d repulse
  = (scheduled_magnitude radius step, repulse_d,
     Rmax 0 (repulse - IZR (Z.of_nat step - 1999))).
Proof.
  intros Hd Hr. induction step as [|step IH]; intros Hs; [lia|].
  cbn [Trials.annealed].
  destruct (decide (Z.of_nat step < 1999)%Z) as [Hlow|Hhigh].
  - assert (Z.of_nat (S step) = 1999%Z) as Heq by lia.
    rewrite annealed_quiet by (done || lia).
    rewrite anneal_quiet by (done || lia).
    rewrite Heq. change (IZR (1999 - 1999)) with 0.
    by rewrite Rminus_0_r, Rmax_floor_0.
  - rewrite IH by lia.
    unfold Trials.anneal, scheduled_magnitude.
    assert (HS : INR (S step) = IZR (Z.of_nat step) + 1).
    { rewrite S_INR, INR_IZR_INZ. done. }
    assert (Hlo : 1999 <= IZR (Z.of_nat step)) by (apply IZR_le; lia).
    assert (Hhi : IZR (Z.of_nat step) < 3999) by (apply IZR_lt; lia).
    rewrite floordiv_1000_small by lra.
    rewrite floordiv_1000_one by lra.
    rewrite Rminus_0_r, Rmax_floor_0 by done.
    rewrite Rmax_floor_step. do 2 f_equal.
    replace (Z.of_nat (S step) - 1999)%Z with (Z.of_nat step - 1999 + 1)%Z
      by lia.
    rewrite plus_IZR. lra.
Qed.

Lemma repulse_loses_a_unit_per_step_witness :
  Trials.annealed 200 (Z.to_nat 2001) 2.1 50
  = (scheduled_magnitude 200 (Z.to_nat 2001), 2.1,
     Rmax 0 (50 - IZR (Z.of_nat (Z.to_nat 2001) - 1999))).
Proof.
  apply repulse_loses_a_unit_per_step; [lra|lra|].
  rewrite Z2Nat.id; lia.
Defined.


(** ** A point out of reach of the others *)

Section Unrepelled.
Variables (magnitude repulse repulse_d radius : R).
Variables (points : list Point) (i : nat) (p : Point).
Hypothesis p_at_i : points !! i = Some p.
Hypothesis focus_apart : focus_distance p <> 0.
Hypothesis out_of_reach :
  forall (j : nat) (q : Point),
    j <> i -> points !! j = Some q ->
    repulse_d * Rabs radius <= sqrt (sqdist p q).

Lemma repulsion_none (rest : list Point) :
  forall (j : nat) (r_force : R * R),
    drop j points = rest ->
    Trials.repulsion repulse repulse_d radius p i j rest r_force
    = Ok r_force.
Proof.
  induction rest as [|q rest IH]; intros j r_force Hrest; [done|].
  apply drop_cons_inv in Hrest as [Hq Hrest].
  cbn [Trials.repulsion]. case_bool_decide as Hij; [by apply IH|].
  rewrite bool_decide_eq_false_2; [by apply IH|].
  rewrite Rabs_pos_eq by apply sqrt_pos.
  specialize (out_of_reach j q ltac:(congruence) Hq). lra.
Qed.

Lemma sum_forces_unrepelled :
  Trials.sum_forces i points repulse repulse_d radius
  = Ok ((fx p - px p) / focus_distance p + 0,
        (fy p - py p) / focus_distance p + 0).
Proof.
  unfold Trials.sum_forces. rewrite (pindex_ok _ _ _ p_at_i). run.
  fold (focus_distance p). rewrite !pdiv_ok by done. run.
  rewrite repulsion_none by done. done.
Qed.

Lemma unit_pull :
  ((fx p - px p) / focus_distance p + 0) ^ 2
  + ((fy p - py p) / focus_distance p + 0) ^ 2 = 1.
Proof.
  assert (Hsq : focus_distance p * focus_distance p = sqfocus p).
  { apply sqrt_sqrt, sqfocus_nonneg. }
  unfold sqfocus in Hsq.
  apply (Rmult_eq_reg_r (focus_distance p * focus_distance p));
    [|by apply Rmult_integral_contrapositive].
  rewrite Rmult_1_l. rewrite Hsq at 2. by field.
Qed.

Lemma tentative_unrepelled :
  Trials.tentative magnitude repulse repulse_d radius points i p
  = Ok (mkPoint (px p + magnitude * ((fx p - px p) / focus_distance p + 0) / 1)
                (py p + magnitude * ((fy p - py p) / focus_distance p + 0) / 1)
                (fx p) (fy p)).
Proof.
  unfold Trials.tentative. rewrite sum_forces_unrepelled. run.
  rewrite unit_pull, sqrt_1. rewrite !pdiv_ok by lra. done.
Qed.

End Unrepelled.

(** X14.  A point that no other point is within [repulse_d * |radius|] of
    (every point, once [repulse_d] is 0) feels the attraction of its focus
    only: its tentative move goes straight at the focus by the step
    magnitude, so that its distance to the focus becomes
    [|distance - magnitude|]; the move overshoots the focus when the
    magnitude exceeds the distance. *)
Theorem unrepelled_point_moves_straight_at_its_focus
    (magnitude repulse repulse_d radius : R) (points : list Point) (i : nat)
    (p : Point) :
  points !! i = Some p ->
  focus_distance p <> 0 ->
  (forall (j : nat) (q : Point),
      j <> i -> points !! j = Some q ->
      repulse_d * Rabs radius <= sqrt (sqdist p q)) ->
  exists moved,
    Trials.tentative magnitude repulse repulse_d radius points i p = Ok moved
    /\ px moved = px p + magnitude * (fx p - px p) / focus_distance p
    /\ py moved = py p + magnitude * (fy p - py p) / focus_distance p
    /\ focus_distance moved = Rabs (focus_distance p - magnitude).
Proof.
  intros Hp Hd Hfar. eexists.
  split; [by apply tentative_unrepelled|]. cbn [px py].
  split; [by field|]. split; [by field|].
  unfold focus_distance at 1. unfold sqfocus. cbn [px py fx fy].
  assert (Hsq : focus_distance p * focus_distance p = sqfocus p).
  { apply sqrt_sqrt, sqfocus_nonneg. }
  unfold sqfocus in Hsq.
  rewrite <- sqrt_Rsqr_abs. f_equal. unfold Rsqr.
  apply (Rmult_eq_reg_r (focus_distance p * focus_distance p));
    [|by apply Rmult_integral_contrapositive].
  transitivity
    (((px p - fx p) ^ 2 + (py p - fy p) ^ 2)
     * ((focus_distance p - magnitude) * (focus_distance p - magnitude))).
  - by field.
  - rewrite <- Hsq. ring.
Qed.

Lemma unrepelled_point_moves_straight_at_its_focus_witness :
  exists moved,
    Trials.tentative 200 50 0 200 [far; near] 0 far = Ok moved
    /\ px moved = px far + 200 * (fx far - px far) / focus_distance far
    /\ py moved = py far + 200 * (fy far - py far) / focus_distance far
    /\ focus_distance moved = Rabs (focus_distance far - 200).
Proof.
  apply unrepelled_point_moves_straight_at_its_focus; [reflexivity| |].
  - rewrite far_distance. lra.
  - intros j q _ _. rewrite Rmult_0_l. apply sqrt_pos.
Defined.


(** ** The random layouts *)

Lemma prandint_Ok_inv (rs : RandomSource) (k : nat) (a b x : Z) :
  source_ok rs -> prandint rs k a b = Ok x -> (a <= x <= b)%Z.
Proof.
  intros Hrs. unfold prandint. case_decide; [|discriminate].
  intros [= <-]. by apply (randint_range rs Hrs).
Qed.

Lemma prandint_empty (rs : RandomSource) (k : nat) (a b : Z) :
  (b < a)%Z -> prandint rs k a b = Raise ValueError.
Proof. intros Hab. unfold prandint. by rewrite decide_False by lia. Qed.

Lemma prandint_ok (rs : RandomSource) (k : nat) (a b : Z) :
  (a <= b)%Z -> prandint rs k a b = Ok (randint rs k a b).
Proof. intros Hab. unfold prandint. by rewrite decide_True. Qed.

Lemma random_init_from_spec (rs : RandomSource) (count : nat)
    (arena_size radius y_max : Z) :
  source_ok rs ->
  forall (k : nat) (pts : list Point),
    LineRandom.random_init_from rs k count arena_size radius y_max = Ok pts ->
    length pts = count
    /\ forall p, p ∈ pts ->
         exists x y f : Z,
           p = mkPoint (IZR x) (IZR y) (IZR f) 0
           /\ (- arena_size + radius <= x <= arena_size - radius)%Z
           /\ (radius <= y <= y_max)%Z
           /\ (- arena_size <= f <= arena_size)%Z.
Proof.
  intros Hrs. induction count as [|count IH]; intros k pts Hpts.
  - injection Hpts as <-. split; [done|]. intros p Hp.
    by apply elem_of_nil in Hp.
  - cbn [LineRandom.random_init_from] in Hpts.
    apply bind_Ok_inv in Hpts as (x & Hx & Hpts).
    apply bind_Ok_inv in Hpts as (y & Hy & Hpts).
    apply bind_Ok_inv in Hpts as (f & Hf & Hpts).
    apply bind_Ok_inv in Hpts as (rest & Hrest & Hpts).
    injection Hpts as <-. destruct (IH _ _ Hrest) as [Hlen Hall].
    split; [cbn [length]; by rewrite Hlen|].
    intros p Hp. apply elem_of_cons in Hp as [->|Hp]; [|by apply Hall].
    exists x, y, f. split; [done|].
    pose proof (prandint_Ok_inv _ _ _ _ _ Hrs Hx).
    pose proof (prandint_Ok_inv _ _ _ _ _ Hrs Hy).
    pose proof (prandint_Ok_inv _ _ _ _ _ Hrs Hf). lia.
Qed.

(** X15.  [random_init] keeps its promise: every point it lays is at an
    integer position with [-arena_size + radius <= x <= arena_size - radius]
    and [radius <= y <= 10 * radius * num_points], with an integer focus
    on the line in [-arena_size, arena_size]; there are [num_points] of
    them, and none comes within [radius] of the line [y = 0]. *)
Theorem random_init_respects_the_arena (rs : RandomSource) (k : nat)
    (num_points arena_size radius : Z) (pts : list Point) :
  source_ok rs ->
  LineRandom.random_init rs k num_points arena_size radius = Ok pts ->
  length pts = Z.to_nat num_points
  /\ (forall p, p ∈ pts ->
        exists x y f : Z,
          p = mkPoint (IZR x) (IZR y) (IZR f) 0
          /\ (- arena_size + radius <= x <= arena_size - radius)%Z
          /\ (radius <= y <= 5 * 2 * radius * num_points)%Z
          /\ (- arena_size <= f <= arena_size)%Z)
  /\ LineRandom.intersect_origin_line pts (IZR radius) = false.
Proof.
  intros Hrs Hpts. unfold LineRandom.random_init in Hpts.
  destruct (random_init_from_spec _ _ _ _ _ Hrs _ _ Hpts) as [Hlen Hall].
  split; [done|]. split; [done|].
  unfold LineRandom.intersect_origin_line.
  destruct (existsb _ pts) eqn:Hex; [|done].
  apply existsb_true_elem in Hex as (p & Hp & Hlow).
  apply bool_decide_eq_true in Hlow.
  destruct (Hall p Hp) as (x & y & f & -> & _ & [Hy _] & _).
  apply IZR_le in Hy. cbn [py] in Hlow. lra.
Qed.

Lemma random_init_respects_the_arena_witness :
  exists pts,
    LineRandom.random_init least 0 2 800 100 = Ok pts
    /\ length pts = Z.to_nat 2
    /\ LineRandom.intersect_origin_line pts (IZR 100) = false.
Proof.
  eexists. split; [reflexivity|].
  destruct (random_init_respects_the_arena least 0 2 800 100 _ least_ok
              eq_refl) as (Hlen & _ & Hline).
  split; [exact Hlen|exact Hline].
Defined.

Lemma random_init_uniform_from_spec (rs : RandomSource) (count : nat)
    (arena_size : Z) :
  source_ok rs ->
  forall (k : nat) (pts : list Point),
    Trials.random_init_uniform_from rs k count arena_size = Ok pts ->
    length pts = count
    /\ forall p, p ∈ pts ->
         exists x y : Z,
           p = mkPoint (IZR x) (IZR y) 0 0
           /\ (- arena_size <= x <= arena_size)%Z
           /\ (- arena_size <= y <= arena_size)%Z.
Proof.
  intros Hrs. induction count as [|count IH]; intros k pts Hpts.
  - injection Hpts as <-. split; [done|]. intros p Hp.
    by apply elem_of_nil in Hp.
  - cbn [Trials.random_init_uniform_from] in Hpts.
    apply bind_Ok_inv in Hpts as (x & Hx & Hpts).
    apply bind_Ok_inv in Hpts as (y & Hy & Hpts).
    apply bind_Ok_inv in Hpts as (rest & Hrest & Hpts).
    injection Hpts as <-. destruct (IH _ _ Hrest) as [Hlen Hall].
    split; [cbn [length]; by rewrite Hlen|].
    intros p Hp. apply elem_of_cons in Hp as [->|Hp]; [|by apply Hall].
    exists x, y. split; [done|].
    pose proof (prandint_Ok_inv _ _ _ _ _ Hrs Hx).
    pose proof (prandint_Ok_inv _ _ _ _ _ Hrs Hy). lia.
Qed.

Lemma random_init_uniform_from_total (rs : RandomSource) (count : nat)
    (arena_size : Z) :
  (0 <= arena_size)%Z ->
  forall k : nat,
    exists pts, Trials.random_init_uniform_from rs k count arena_size = Ok pts.
Proof.
  intros Ha. induction count as [|count IH]; intros k; [by eexists|].
  cbn [Trials.random_init_uniform_from].
  rewrite !prandint_ok by lia. run.
  destruct (IH (S (S k))) as [rest ->]. run. by eexists.
Qed.

(** X16.  [random_init_uniform] lays [num_points] points at integer
    positions of the square [-arena_size .. arena_size] in both
    coordinates, all with the focus [(0, 0)]; it returns for every
    [arena_size >= 0], and raises [ValueError] when a point is asked for
    in an arena of negative size. *)
Theorem random_init_uniform_fills_the_square (rs : RandomSource) (k : nat)
    (num_points arena_size radius : Z) :
  source_ok rs ->
  (forall pts,
      Trials.random_init_uniform rs k num_points arena_size radius = Ok pts ->
      length pts = Z.to_nat num_points
      /\ forall p, p ∈ pts ->
           exists x y : Z,
             p = mkPoint (IZR x) (IZR y) 0 0
             /\ (- arena_size <= x <= arena_size)%Z
             /\ (- arena_size <= y <= arena_size)%Z)
  /\ ((0 <= arena_size)%Z ->
      exists pts,
        Trials.random_init_uniform rs k num_points arena_size radius = Ok pts)
  /\ ((arena_size < 0)%Z -> (0 < num_points)%Z ->
      Trials.random_init_uniform rs k num_points arena_size radius
      = Raise ValueError).
Proof.
  intros Hrs. unfold Trials.random_init_uniform. split; [|split].
  - intros pts. by apply random_init_uniform_from_spec.
  - intros Ha. by apply random_init_uniform_from_total.
  - intros Ha Hn. destruct (Z.to_nat num_points) as [|count] eqn:Hc; [lia|].
    cbn [Trials.random_init_uniform_from].
    rewrite !prandint_empty by lia. reflexivity.
Qed.

Lemma random_init_uniform_fills_the_square_witness :
  (exists pts, Trials.random_init_uniform least 0 3 800 200 = Ok pts)
  /\ Trials.random_init_uniform least 0 3 (-1) 200 = Raise ValueError.
Proof.
  destruct (random_init_uniform_fills_the_square least 0 3 800 200 least_ok)
    as (_ & Htotal & _).
  destruct (random_init_uniform_fills_the_square least 0 3 (-1) 200 least_ok)
    as (_ & _ & Hraise).
  split; [apply Htotal; lia|apply Hraise; lia].
Defined.


(** ** The layered layout *)





(** ** The double-sided layout *)

Lemma double_side_loop_spec (arena_size radius : Z) (count : nat) :
  forall (points : list Point) (curr_y separation : R),
    let '(pts, _, _) :=
      LineRandom.double_side_loop count arena_size radius points
                                  curr_y separation in
    length pts = (length points + 2 * count)%nat
    /\ ((forall p, p ∈ points ->
           px p = IZR (- arena_size + radius)
           \/ px p = IZR (arena_size - radius)) ->
        forall p, p ∈ pts ->
          px p = IZR (- arena_size + radius)
          \/ px p = IZR (arena_size - radius)).
Proof.
  induction count as [|count IH]; intros points curr_y separation.
  - cbn. split; [lia|done].
  - cbn [LineRandom.double_side_loop].
    specialize (IH (points
                    ++ [mkPoint (IZR (- arena_size + radius))
                                (curr_y + separation) 0 0;
                        mkPoint (IZR (arena_size - radius))
                                (curr_y + separation) 0 0])
                   (curr_y + separation) (separation * 1.1)).
    destruct (LineRandom.double_side_loop _ _ _ _ _ _) as [[pts y] sep].
    destruct IH as [Hlen Hside]. split.
    + rewrite Hlen, length_app. cbn [length]. lia.
    + intros Hpoints. apply Hside. intros p Hp.
      apply elem_of_app in Hp as [Hp|Hp]; [by apply Hpoints|].
      apply elem_of_cons in Hp as [->|Hp]; [by left|].
      apply list_elem_of_singleton in Hp as ->. by right.
Qed.

(** X18.  [double_side_init] lays exactly [num_points] points, odd
    numbers included (and none for a negative number), every one of them
    on the left edge [x = -arena_size + radius] or the right edge
    [x = arena_size - radius]. *)
Theorem double_side_init_lays_every_point (num_points arena_size radius : Z) :
  length (LineRandom.double_side_init num_points arena_size radius)
  = Z.to_nat num_points
  /\ forall p,
      p ∈ LineRandom.double_side_init num_points arena_size radius ->
      px p = IZR (- arena_size + radius) \/ px p = IZR (arena_size - radius).
Proof.
  unfold LineRandom.double_side_init.
  pose proof (double_side_loop_spec arena_size radius
                (Z.to_nat (num_points / 2)) [] 0 (2.5 * IZR radius)) as Hloop.
  destruct (LineRandom.double_side_loop _ _ _ _ _ _) as [[pts y] sep].
  destruct Hloop as [Hlen Hside]. cbn [length] in Hlen.
  assert (Hall : forall p, p ∈ pts ->
             px p = IZR (- arena_size + radius)
             \/ px p = IZR (arena_size - radius)).
  { apply Hside. intros p Hp. by apply elem_of_nil in Hp. }
  case_bool_decide as Hodd.
  - split.
    + rewrite length_app. cbn [length]. rewrite Hlen in *.
      pose proof (Z.div_mod num_points 2 ltac:(lia)).
      pose proof (Z.mod_pos_bound num_points 2 ltac:(lia)). lia.
    + intros p Hp. apply elem_of_app in Hp as [Hp|Hp]; [by apply Hall|].
      apply list_elem_of_singleton in Hp as ->. by left.
  - split; [|done]. rewrite Hlen in *.
    destruct (decide (num_points < 0)%Z) as [Hneg|Hpos].
    + assert (num_points / 2 < 0)%Z by (apply Z.div_lt_upper_bound; lia).
      lia.
    + pose proof (Z.div_mod num_points 2 ltac:(lia)).
      pose proof (Z.mod_pos_bound num_points 2 ltac:(lia)). lia.
Qed.

Lemma double_side_init_lays_every_point_witness :
  length (LineRandom.double_side_init 5 800 100) = Z.to_nat 5.
Proof. apply (double_side_init_lays_every_point 5 800 100). Defined.


(** ** The stacked layouts *)

Lemma pfloordiv_ok (a b : Z) : b <> 0%Z -> LineRandom.pfloordiv a b = Ok (a / b)%Z.
Proof. intros Hb. unfold LineRandom.pfloordiv. by rewrite decide_False. Qed.

Lemma pfloordiv_zero (a : Z) :
  LineRandom.pfloordiv a 0 = Raise ZeroDivisionError.
Proof. reflexivity. Qed.

Lemma length_stack_column (radius : Z) (x_per_stack : R) (count : nat) :
  forall (curr_x curr_y separation : R),
    length (LineRandom.stack_column count radius curr_x x_per_stack
              curr_y separation) = count.
Proof.
  induction count as [|count IH]; intros curr_x curr_y separation; [done|].
  cbn [LineRandom.stack_column length]. by rewrite IH.
Qed.

Lemma length_concat_uniform {A B} (f : A -> list B) (c : nat) (l : list A) :
  (forall a, length (f a) = c) ->
  length (concat (map f l)) = (length l * c)%nat.
Proof.
  intros Hf. induction l as [|a l IH]; [done|].
  cbn [map concat length]. rewrite length_app, Hf, IH. lia.
Qed.

Lemma kept_points (num_points num_stacks : Z) :
  (0 < num_stacks)%Z -> (0 <= num_points)%Z ->
  Z.of_nat (Z.to_nat num_stacks * Z.to_nat (num_points / num_stacks))
  = (num_points - num_points mod num_stacks)%Z.
Proof.
  intros Hs Hn.
  pose proof (Z.div_mod num_points num_stacks ltac:(lia)).
  pose proof (Z.div_pos num_points num_stacks Hn Hs).
  rewrite Nat2Z.inj_mul, !Z2Nat.id by lia. lia.
Qed.

(** X19.  The two stacked layouts lay [num_stacks] times
    [num_points // num_stacks] points: when [num_points] is not a multiple
    of the number of stacks, the [num_points mod num_stacks] points left
    over are dropped without a word. *)
Theorem stacked_layouts_drop_the_remainder (rs : RandomSource)
    (num_points arena_size radius num_stacks : Z) :
  LineRandom.num_stacks_of arena_size radius = Ok num_stacks ->
  (0 < num_stacks)%Z -> (0 <= num_points)%Z ->
  (forall pts,
      LineRandom.angled_init rs num_points arena_size radius = Ok pts ->
      Z.of_nat (length pts) = (num_points - num_points mod num_stacks)%Z)
  /\ (forall pts,
        LineRandom.stacks_init num_points arena_size radius = Ok pts ->
        Z.of_nat (length pts) = (num_points - num_points mod num_stacks)%Z).
Proof.
  intros Hstacks Hs Hn. split; intros pts Hpts.
  - unfold LineRandom.angled_init in Hpts. rewrite Hstacks in Hpts.
    cbn [mbind result_bind] in Hpts.
    unfold LineRandom.num_per_stack_of in Hpts.
    rewrite pfloordiv_ok in Hpts by lia.
    cbn [mbind result_bind] in Hpts.
    apply bind_Ok_inv in Hpts as (x_per_stack & _ & Hpts).
    injection Hpts as <-. rewrite length_rows.
    rewrite Nat.mul_comm. by apply kept_points.
  - unfold LineRandom.stacks_init in Hpts. rewrite Hstacks in Hpts.
    cbn [mbind result_bind] in Hpts.
    unfold LineRandom.num_per_stack_of in Hpts.
    rewrite pfloordiv_ok in Hpts by lia.
    cbn [mbind result_bind] in Hpts.
    apply bind_Ok_inv in Hpts as (x_per_stack & _ & Hpts).
    injection Hpts as <-.
    rewrite (length_concat_uniform _ (Z.to_nat (num_points / num_stacks)))
      by (intros n; apply length_stack_column).
    rewrite length_seqZ. by apply kept_points.
Qed.

Lemma stacked_layouts_drop_the_remainder_witness :
  exists pts,
    LineRandom.stacks_init 23 800 100 = Ok pts
    /\ Z.of_nat (length pts) = (23 - 23 mod 5)%Z.
Proof.
  destruct (stacked_layouts_drop_the_remainder least 23 800 100 5 eq_refl
              ltac:(lia) ltac:(lia)) as [_ Hstacks].
  unfold LineRandom.stacks_init in *.
  change (LineRandom.num_stacks_of 800 100) with (@Ok Z 5%Z) in *.
  change (LineRandom.num_per_stack_of 23 5) with (@Ok Z 4%Z) in *.
  cbn [mbind result_bind] in *. rewrite pdiv_ok in * by lra.
  cbn [mbind result_bind] in *. eexists. split; [reflexivity|].
  by apply Hstacks.
Defined.

(** X20.  [angled_init] needs two points per stack.  In an arena of at
    least [4 * radius], with [num_stacks = (arena_size - 3 * radius) //
    radius] stacks, it returns a layout exactly when
    [num_points >= 2 * num_stacks], and raises [ValueError] (the empty
    range of its [randint]) for every smaller number of points; in a
    narrower arena of at least [3 * radius] it raises
    [ZeroDivisionError]. *)
Theorem angled_init_needs_two_points_per_stack (rs : RandomSource)
    (num_points arena_size radius : Z) :
  (0 < radius)%Z ->
  ((4 * radius <= arena_size)%Z ->
   (2 * ((arena_size - 3 * radius) / radius) <= num_points)%Z ->
   exists pts, LineRandom.angled_init rs num_points arena_size radius = Ok pts)
  /\ ((4 * radius <= arena_size)%Z ->
      (num_points < 2 * ((arena_size - 3 * radius) / radius))%Z ->
      LineRandom.angled_init rs num_points arena_size radius
      = Raise ValueError)
  /\ ((3 * radius <= arena_size < 4 * radius)%Z ->
      LineRandom.angled_init rs num_points arena_size radius
      = Raise ZeroDivisionError).
Proof.
  intros Hr. unfold LineRandom.angled_init, LineRandom.num_stacks_of,
    LineRandom.num_per_stack_of.
  rewrite pfloordiv_ok by lia. cbn [mbind result_bind].
  set (num_stacks := ((arena_size - 3 * radius) / radius)%Z).
  split; [|split].
  - intros Ha Hn.
    assert (Hs : (1 <= num_stacks)%Z)
      by (apply Z.div_le_lower_bound; lia).
    rewrite pfloordiv_ok by lia. cbn [mbind result_bind].
    assert (2 <= num_points / num_stacks)%Z
      by (apply Z.div_le_lower_bound; lia).
    rewrite prandint_ok by nia. by eexists.
  - intros Ha Hn.
    assert (Hs : (1 <= num_stacks)%Z)
      by (apply Z.div_le_lower_bound; lia).
    rewrite pfloordiv_ok by lia. cbn [mbind result_bind].
    assert (num_points / num_stacks < 2)%Z
      by (apply Z.div_lt_upper_bound; lia).
    rewrite prandint_empty by nia. done.
  - intros Ha.
    assert (Hs : num_stacks = 0%Z).
    { apply Z.div_small. lia. }
    by rewrite Hs.
Qed.

Lemma angled_init_needs_two_points_per_stack_witness :
  (exists pts, LineRandom.angled_init least 10 800 100 = Ok pts)
  /\ LineRandom.angled_init least 9 800 100 = Raise ValueError
  /\ LineRandom.angled_init least 20 350 100 = Raise ZeroDivisionError.
Proof.
  destruct (angled_init_needs_two_points_per_stack least 10 800 100
              ltac:(lia)) as (Hok & _ & _).
  destruct (angled_init_needs_two_points_per_stack least 9 800 100
              ltac:(lia)) as (_ & Hvalue & _).
  destruct (angled_init_needs_two_points_per_stack least 20 350 100
              ltac:(lia)) as (_ & _ & Hzero).
  split; [apply Hok; [lia|by vm_compute]|].
  split; [apply Hvalue; [lia|by vm_compute]|apply Hzero; lia].
Defined.


(** ** A successful assignment of foci *)

Lemma any_raising_insert {A} (test : A -> result bool) (l : list A)
    (k : nat) (a b : A) :
  l !! k = Some a -> test b = test a ->
  any_raising test (<[k := b]> l) = any_raising test l.
Proof.
  revert k. induction l as [|x l IH]; intros k Hk Htest; [done|].
  destruct k as [|k].
  - injection Hk as ->. change (<[0%nat:=b]> (a :: l)) with (b :: l).
    cbn [any_raising]. by rewrite Htest.
  - change (<[S k:=b]> (x :: l)) with (x :: <[k:=b]> l).
    cbn [any_raising]. by rewrite (IH k Hk Htest).
Qed.

Lemma half_plane_blocks_same_centre (m b : R) (q : Point) (radius : R)
    (p2 p2' : Point) :
  centre p2' = centre p2 -> p2 <> q -> p2' <> q ->
  LineRandom.blocks m b q radius p2' = LineRandom.blocks m b q radius p2.
Proof.
  intros [= Hx Hy] Hne Hne'. unfold LineRandom.blocks.
  rewrite (bool_decide_eq_false_2 (p2' = q)) by done.
  rewrite (bool_decide_eq_false_2 (p2 = q)) by done. by rewrite Hx, Hy.
Qed.

Lemma half_plane_is_blocked_insert (q : Point) (l : list Point) (k : nat)
    (a b : Point) (radius : R) :
  l !! k = Some a -> centre b = centre a -> a <> q -> b <> q ->
  LineRandom.is_blocked q (<[k := b]> l) radius
  = LineRandom.is_blocked q l radius.
Proof.
  intros Hk Hc Ha Hb. unfold LineRandom.is_blocked.
  destruct (pdiv _ _) as [m|e]; [|done]. run.
  apply (any_raising_insert _ l k a b Hk).
  by apply half_plane_blocks_same_centre.
Qed.

Section Scan.
Variables (radius : R) (arena_size : Z) (max_x min_x : R).

Lemma scan_sides_spec (i : nat) (d : Z) (np : list Point) (p : Point)
    (sides : list Z) :
  forall (cur : Point) (b : bool) (np' : list Point),
    np !! i = Some p -> centre cur = centre p ->
    LineRandom.scan_sides radius max_x min_x i d sides (<[i := cur]> np)
    = Ok (b, np') ->
    exists q,
      np' = <[i := q]> np /\ centre q = centre p
      /\ (b = true ->
          (exists side, side ∈ sides /\ assigned max_x min_x p q (side * d))
          /\ LineRandom.is_blocked q np' radius = Ok false).
Proof.
  induction sides as [|side sides IH]; intros cur b np' Hp Hcur Hscan.
  - injection Hscan as <- <-. by exists cur.
  - assert (Hi : (i < length np)%nat) by (by eapply lookup_lt_Some).
    cbn [LineRandom.scan_sides] in Hscan.
    rewrite (pindex_ok _ _ cur) in Hscan
      by (by apply list_lookup_insert_eq).
    cbn [mbind result_bind] in Hscan.
    injection Hcur as Hcx Hcy. rewrite Hcx, Hcy in Hscan.
    destruct (bool_decide (max_x < px p + IZR (side * d))
              || bool_decide (px p + IZR (side * d) < min_x)) eqn:Hlane.
    + destruct (IH cur b np' Hp) as (q & Hq & Hc & Hgood);
        [by unfold centre; rewrite Hcx, Hcy|done|].
      exists q. split; [done|]. split; [done|].
      intros Hb. destruct (Hgood Hb) as [(s & Hs & Ha) Hblocked].
      split; [|done]. exists s. split; [by right|done].
    + rewrite list_insert_insert_eq in Hscan.
      set (new_p := mkPoint (px p) (py p) (px p + IZR (side * d)) 0) in *.
      apply bind_Ok_inv in Hscan as (blocked & Hblocked & Hscan).
      destruct blocked; cbn [negb] in Hscan.
      * destruct (IH new_p b np' Hp eq_refl Hscan) as (q & Hq & Hc & Hgood).
        exists q. split; [done|]. split; [done|].
        intros Hb. destruct (Hgood Hb) as [(s & Hs & Ha) Hfree].
        split; [|done]. exists s. split; [by right|done].
      * injection Hscan as <- <-. exists new_p.
        split; [done|]. split; [done|]. intros _. split; [|done].
        exists side. split; [by left|].
        apply orb_false_elim in Hlane as [Hmax Hmin].
        apply bool_decide_eq_false in Hmax, Hmin.
        unfold assigned, new_p. cbn [fx fy]. repeat split; lra.
Qed.

Lemma scan_offsets_spec (i : nat) (np : list Point) (p : Point)
    (ds : list Z) :
  forall (cur : Point) (b : bool) (np' : list Point),
    np !! i = Some p -> centre cur = centre p ->
    LineRandom.scan_offsets radius max_x min_x i ds (<[i := cur]> np)
    = Ok (b, np') ->
    exists q,
      np' = <[i := q]> np /\ centre q = centre p
      /\ (b = true ->
          (exists d side,
              d ∈ ds /\ side ∈ [1; -1]%Z /\ assigned max_x min_x p q (side * d))
          /\ LineRandom.is_blocked q np' radius = Ok false).
Proof.
  induction ds as [|d ds IH]; intros cur b np' Hp Hcur Hscan.
  - injection Hscan as <- <-. by exists cur.
  - cbn [LineRandom.scan_offsets] in Hscan.
    apply bind_Ok_inv in Hscan as ([b1 np1] & Hsides & Hscan).
    destruct (scan_sides_spec i d np p _ cur b1 np1 Hp Hcur Hsides)
      as (q1 & -> & Hc1 & Hgood1).
    destruct b1.
    + injection Hscan as <- <-. exists q1. split; [done|]. split; [done|].
      intros _. destruct (Hgood1 eq_refl) as [(s & Hs & Ha) Hfree].
      split; [|done]. exists d, s. split; [by left|done].
    + destruct (IH q1 b np' Hp Hc1 Hscan) as (q & Hq & Hc & Hgood).
      exists q. split; [done|]. split; [done|].
      intros Hb. destruct (Hgood Hb) as [(d' & s & Hd & Hs & Ha) Hfree].
      split; [|done]. exists d', s. split; [by right|done].
Qed.

Lemma scan_point_spec (i : nat) (np np' : list Point) (p : Point) :
  np !! i = Some p ->
  LineRandom.scan_point radius arena_size max_x min_x i np = Ok (true, np') ->
  exists q z,
    np' = <[i := q]> np /\ assigned max_x min_x p q z
    /\ (- arena_size < z < arena_size)%Z
    /\ LineRandom.is_blocked q np' radius = Ok false.
Proof.
  intros Hp Hscan. unfold LineRandom.scan_point in Hscan.
  rewrite <- (list_insert_id np i p Hp) in Hscan at 1.
  destruct (scan_offsets_spec i np p _ p true np' Hp eq_refl Hscan)
    as (q & Hq & _ & Hgood).
  destruct (Hgood eq_refl) as [(d & s & Hd & Hs & Ha) Hfree].
  exists q, (s * d)%Z. split; [done|]. split; [done|]. split; [|done].
  apply elem_of_seqZ in Hd.
  apply elem_of_cons in Hs as [->|Hs]; [lia|].
  apply list_elem_of_singleton in Hs as ->. lia.
Qed.

End Scan.


Lemma degenerate_false (points : list Point) :
  degenerate points = false ->
  forall (j k : nat) p p',
    j <> k -> points !! j = Some p -> points !! k = Some p' ->
    centre p <> centre p'.
Proof.
  intros Hdeg j k p p' Hjk Hj Hk Hc.
  by rewrite (degenerate_true points j k p p' Hjk Hj Hk Hc) in Hdeg.
Qed.

Section AssignSuccess.
Variables (radius : R) (arena_size : Z) (max_x min_x : R).
Variable points : list Point.

#[local] Abbreviation done_for :=
  (committed radius arena_size max_x min_x points).

Lemma assign_loop_spec (todo : list Point) :
  forall (i : nat) (np nps : list Point),
    drop i points = todo ->
    length np = length points ->
    (forall j : nat, (i <= j)%nat -> np !! j = points !! j) ->
    (forall (j : nat) p, (j < i)%nat -> points !! j = Some p ->
       done_for np j p) ->
    LineRandom.assign_loop radius arena_size max_x min_x points i todo np
    = Ok (true, nps) ->
    length nps = length points
    /\ forall (j : nat) p, points !! j = Some p -> done_for nps j p.
Proof.
  induction todo as [|p_i todo IH];
    intros i np nps Htodo Hlen Hlater Hearlier Hloop.
  - injection Hloop as <-. split; [done|]. intros j p Hj.
    apply Hearlier; [|done].
    apply lookup_lt_Some in Hj.
    assert (length (drop i points) = 0%nat) by (by rewrite Htodo).
    rewrite length_drop in *. lia.
  - apply drop_cons_inv in Htodo as [Hpi Htodo].
    assert (Hnpi : np !! i = Some p_i) by (by rewrite Hlater).
    cbn [LineRandom.assign_loop] in Hloop.
    apply bind_Ok_inv in Hloop as ([can np1] & Hscan & Hloop).
    destruct can; [|discriminate].
    destruct (scan_point_spec _ _ _ _ _ _ _ _ Hnpi Hscan)
      as (q & z & -> & Ha & Hz & Hfree).
    apply (IH (S i) (<[i:=q]> np) nps); [done|by rewrite length_insert| |
                                          |done].
    + intros j Hj. rewrite list_lookup_insert_ne by lia. apply Hlater. lia.
    + intros j p Hj Hp. destruct (decide (j = i)) as [->|Hne].
      * assert (p = p_i) as -> by congruence.
        exists q, z. split; [|done].
        apply list_lookup_insert_eq. by eapply lookup_lt_Some.
      * destruct (Hearlier j p ltac:(lia) Hp)
          as (q_j & z_j & Hq_j & Ha_j & Hz_j & Hfree_j).
        exists q_j, z_j. split; [by rewrite list_lookup_insert_ne|].
        split; [done|]. split; [done|]. intros Hdeg.
        rewrite <- (Hfree_j Hdeg).
        pose proof (degenerate_false points Hdeg i j p_i p
                      ltac:(done) Hpi Hp) as Hapart.
        destruct Ha as (Hc & _). destruct Ha_j as (Hc_j & _).
        apply (half_plane_is_blocked_insert q_j np i p_i q radius);
          [done..| |].
        -- intros ->. apply Hapart. by rewrite Hc_j.
        -- intros ->. apply Hapart. by rewrite <- Hc, Hc_j.
Qed.

End AssignSuccess.

(** X21.  When [assign_foci] succeeds, the points it returns are the
    points it was given, in the same order and at the same centres, each
    with a focus on the line [y = 0], inside the lane [min_x .. max_x], at
    a whole offset of less than [arena_size] from the point; and provided
    no two points of the input share their centre (as the validator has
    checked before the call), no point of the result is blocked in the
    result. *)
Theorem successful_assignment_leaves_no_point_blocked (radius : R)
    (arena_size : Z) (max_x min_x : R) (points nps : list Point) :
  LineRandom.assign_foci radius arena_size max_x min_x points
  = Ok (true, nps) ->
  length nps = length points
  /\ (forall (j : nat) p,
        points !! j = Some p ->
        exists q z,
          nps !! j = Some q /\ assigned max_x min_x p q z
          /\ (- arena_size < z < arena_size)%Z)
  /\ (degenerate points = false ->
      forall q, q ∈ nps -> LineRandom.is_blocked q nps radius = Ok false).
Proof.
  intros Hassign. unfold LineRandom.assign_foci in Hassign.
  destruct (assign_loop_spec radius arena_size max_x min_x points points
              0 points nps eq_refl eq_refl ltac:(done)
              ltac:(intros; lia) Hassign) as [Hlen Hall].
  split; [done|]. split.
  - intros j p Hp. destruct (Hall j p Hp) as (q & z & Hq & Ha & Hz & _).
    by exists q, z.
  - intros Hdeg q Hq. apply list_elem_of_lookup_1 in Hq as [j Hj].
    destruct (lookup_lt_is_Some_2 points j) as [p Hp];
      [rewrite <- Hlen; by eapply lookup_lt_Some|].
    destruct (Hall j p Hp) as (q' & z & Hq' & _ & _ & Hfree).
    assert (q' = q) as -> by congruence. by apply Hfree.
Qed.

Lemma front_stray_assigned :
  LineRandom.assign_foci 100 800 2500 (-50) [front; stray]
  = Ok (true, [front_assigned; mkPoint 2000 300 2000 0]).
Proof.
  unfold LineRandom.assign_foci. cbn [LineRandom.assign_loop].
  unfold LineRandom.scan_point. rewrite seqZ_cons by lia.
  cbn [LineRandom.scan_offsets LineRandom.scan_sides].
  unfold pindex, front, stray, front_assigned. cbn [lookup list_lookup]. run.
  change (1 * 0)%Z with 0%Z. decide_reals. run.
  unfold LineRandom.is_blocked. run. rewrite pdiv_ok by lra. run.
  cbn [insert list_insert any_raising]. unfold LineRandom.blocks. run.
  decide_reals. run.
  cbn [LineRandom.scan_offsets LineRandom.scan_sides].
  unfold pindex. cbn [lookup list_lookup]. run.
  change (1 * 0)%Z with 0%Z. decide_reals. run.
  unfold LineRandom.is_blocked. run. rewrite pdiv_ok by lra. run.
  cbn [insert list_insert any_raising]. unfold LineRandom.blocks. run.
  decide_reals. run. distance_checks.
  do 3 f_equal; [f_equal; lra|]. do 2 f_equal. lra.
Qed.

Lemma successful_assignment_leaves_no_point_blocked_witness :
  LineRandom.is_blocked (mkPoint 2000 300 2000 0)
    [front_assigned; mkPoint 2000 300 2000 0] 100
  = Ok false.
Proof.
  apply (successful_assignment_leaves_no_point_blocked 100 800 2500 (-50)
           [front; stray] _ front_stray_assigned).
  - unfold degenerate, coincide, front, stray. cbn [any_pair existsb]. run.
    decide_reals. done.
  - right. left.
Defined.


(** ** The periodicity enforced on a layout *)

Lemma position_ok (len : nat) (z : Z) :
  (0 <= z < Z.of_nat len)%Z -> LineRandom.position len z = Ok (Z.to_nat z).
Proof.
  intros Hz. unfold LineRandom.position.
  rewrite (decide_False (P := (z < 0)%Z)) by lia.
  by rewrite decide_True.
Qed.

Lemma last_of_row (num_stacks k : Z) :
  (2 <= num_stacks)%Z -> (((k + 1) * num_stacks - 1 + 1) mod num_stacks = 0)%Z.
Proof.
  intros Hs. replace ((k + 1) * num_stacks - 1 + 1)%Z
    with ((k + 1) * num_stacks)%Z by lia.
  by apply Z.mod_mul; lia.
Qed.

Lemma before_last_of_row (num_stacks k : Z) :
  (2 <= num_stacks)%Z ->
  (((k + 1) * num_stacks - 1 - 1 + 1) mod num_stacks <> 0)%Z.
Proof.
  intros Hs Hz.
  replace ((k + 1) * num_stacks - 1 - 1 + 1)%Z
    with (num_stacks - 1 + k * num_stacks)%Z in Hz by lia.
  rewrite Z.mod_add, Z.mod_small in Hz by lia. lia.
Qed.

Lemma last_in_row_is_unique (num_stacks i j : Z) :
  (2 <= num_stacks)%Z ->
  ((j + 1) mod num_stacks = 0)%Z ->
  (i * num_stacks <= j < (i + 1) * num_stacks)%Z ->
  j = ((i + 1) * num_stacks - 1)%Z.
Proof.
  intros Hs Hlast Hj.
  apply Z.mod_divide in Hlast as [c Hc]; [|lia].
  assert (i < c)%Z by nia. assert (c <= i + 1)%Z by nia.
  assert (c = i + 1)%Z as -> by lia. lia.
Qed.

Section Periodicity.
Variables (num_stacks num_per_stack : Z) (spacing : R).
Variable points : list Point.
Hypothesis two_stacks : (2 <= num_stacks)%Z.
Hypothesis full_rows :
  Z.of_nat (length points) = (num_stacks * num_per_stack)%Z.

Lemma periodicity_loop_spec (n : nat) :
  forall (i : Z) (np : list Point),
    (0 <= i)%Z -> (i + Z.of_nat n = num_per_stack)%Z ->
    length np = length points ->
    (forall j : nat,
        np !! j
        = if decide (((Z.of_nat j + 1) mod num_stacks = 0)%Z
                     /\ (Z.of_nat j < i * num_stacks)%Z)
          then LineRandom.shifted spacing <$> points !! (j - 1)%nat
          else points !! j) ->
    exists res,
      LineRandom.periodicity_loop num_stacks spacing (seqZ i (Z.of_nat n)) np
      = Ok res
      /\ length res = length points
      /\ forall j : nat,
          res !! j
          = if decide ((Z.of_nat j + 1) mod num_stacks = 0)%Z
            then LineRandom.shifted spacing <$> points !! (j - 1)%nat
            else points !! j.
Proof.
  induction n as [|n IH]; intros i np Hi Hrows Hlen Hnp.
  - exists np. split; [done|]. split; [done|]. intros j. rewrite Hnp.
    destruct (decide ((Z.of_nat j + 1) mod num_stacks = 0)%Z) as [Hlast|Hnot].
    + case_decide as Hc; [done|].
      assert (Hout : (num_stacks * num_per_stack <= Z.of_nat j)%Z) by nia.
      assert (Z.of_nat j <> num_stacks * num_per_stack)%Z.
      { intros Heq. rewrite Heq in Hlast.
        rewrite Z.mul_comm, Z.add_comm, Z.mod_add, Z.mod_small in Hlast
          by lia. lia. }
      rewrite !lookup_ge_None_2 by lia. done.
    + case_decide as Hc; [|done]. by destruct Hc.
  - rewrite seqZ_cons by lia. cbn [LineRandom.periodicity_loop].
    set (this := ((i + 1) * num_stacks - 1)%Z).
    assert (Hthis : (1 <= this < Z.of_nat (length points))%Z) by nia.
    unfold LineRandom.pindexZ, LineRandom.passignZ.
    rewrite Hlen, !position_ok by lia. run.
    assert (Hprev : np !! Z.to_nat (this - 1)
                    = points !! Z.to_nat (this - 1)).
    { rewrite Hnp. rewrite decide_False; [done|]. intros [Hlast _].
      rewrite Z2Nat.id in Hlast by lia.
      by apply (before_last_of_row num_stacks i). }
    destruct (lookup_lt_is_Some_2 points (Z.to_nat (this - 1)) ltac:(lia))
      as [prev Hprev_pt].
    rewrite (pindex_ok _ _ prev) by (by rewrite Hprev). run.
    replace (Z.pred (Z.of_nat (S n))) with (Z.of_nat n) by lia.
    apply IH; [lia|lia|by rewrite length_insert|].
    intros j. destruct (decide (j = Z.to_nat this)) as [->|Hne].
    + rewrite list_lookup_insert_eq by lia.
      rewrite decide_True.
      * replace (Z.to_nat this - 1)%nat with (Z.to_nat (this - 1)) by lia.
        by rewrite Hprev_pt.
      * rewrite Z2Nat.id by lia. split; [by apply last_of_row|]. lia.
    + rewrite list_lookup_insert_ne by done. rewrite Hnp.
      destruct (decide ((Z.of_nat j + 1) mod num_stacks = 0)%Z) as [Hl|Hn].
      * destruct (decide (Z.of_nat j < i * num_stacks)%Z) as [Hlow|Hhigh].
        -- rewrite !decide_True by (split; [done|lia]). done.
        -- rewrite !decide_False; [done| |tauto].
           intros [_ Hlt]. apply Hne.
           pose proof (last_in_row_is_unique num_stacks i (Z.of_nat j)
                         two_stacks Hl ltac:(lia)). lia.
      * rewrite !decide_False by tauto. done.
Qed.

End Periodicity.

(** X22.  On a layout of [num_per_stack] full rows of [num_stacks >= 2]
    points, the periodicity enforcement returns a layout of the same
    length in which the last point of every row is the point before it in
    the input, shifted with its focus by [spacing] along [x], and every
    other point is the point of the input: what the input had at the last
    position of a row, the focus [assign_foci] found for it included, is
    overwritten. *)
Theorem periodicity_overwrites_the_last_stack (num_stacks num_per_stack : Z)
    (spacing : R) (points : list Point) :
  (2 <= num_stacks)%Z -> (0 <= num_per_stack)%Z ->
  Z.of_nat (length points) = (num_stacks * num_per_stack)%Z ->
  exists res,
    LineRandom.enforce_periodicity num_stacks num_per_stack spacing points
    = Ok res
    /\ length res = length points
    /\ forall j : nat,
        res !! j
        = if decide ((Z.of_nat j + 1) mod num_stacks = 0)%Z
          then LineRandom.shifted spacing <$> points !! (j - 1)%nat
          else points !! j.
Proof.
  intros Hs Hn Hlen. unfold LineRandom.enforce_periodicity.
  replace (seqZ 0 num_per_stack)
    with (seqZ 0 (Z.of_nat (Z.to_nat num_per_stack)))
    by (by rewrite Z2Nat.id).
  apply (periodicity_loop_spec num_stacks num_per_stack spacing points Hs
           Hlen (Z.to_nat num_per_stack) 0 points); [lia|lia|done|].
  intros j. rewrite decide_False; [done|]. intros [_ Hj]. lia.
Qed.

Lemma periodicity_overwrites_the_last_stack_witness :
  exists res,
    LineRandom.enforce_periodicity 2 1 10 [front; stray] = Ok res
    /\ length res = length [front; stray]
    /\ forall j : nat,
        res !! j
        = if decide ((Z.of_nat j + 1) mod 2 = 0)%Z
          then LineRandom.shifted 10 <$> [front; stray] !! (j - 1)%nat
          else [front; stray] !! j.
Proof.
  apply periodicity_overwrites_the_last_stack; [lia|lia|reflexivity].
Defined.


(** ** The relaxation validator, exactly *)

Lemma pairs_apart (points : list Point) (radius : R) :
  (forall (i j : nat) p q,
      i <> j -> points !! i = Some p -> points !! j = Some q ->
      centre p <> centre q /\ sqdist p q >= 4 * radius ^ 2) ->
  degenerate points = false /\ self_intersect points radius = false.
Proof.
  intros Hpairs. split.
  - destruct (degenerate points) eqn:Hdeg; [|done].
    apply any_pair_true in Hdeg as (i & j & p & q & Hij & Hi & Hj & Hc).
    unfold coincide in Hc. apply andb_true_iff in Hc as [Hx Hy].
    apply bool_decide_eq_true in Hx, Hy.
    destruct (Hpairs i j p q) as [Hne _]; [lia|done..|].
    exfalso. apply Hne. unfold centre. by rewrite Hx, Hy.
  - destruct (self_intersect points radius) eqn:Hself; [|done].
    apply self_intersect_true in Hself
      as (i & j & p & q & Hij & Hi & Hj & Hov).
    destruct (Hpairs i j p q) as [_ Hge]; [done..|]. lra.
Qed.

(** X23.  The validator of the relaxation accepts a configuration exactly
    when no two points at different indices share their centre or are
    closer than [2 * radius], every point is outside the open disk of
    radius [radius] around the origin, and [is_blocked] answers [False]
    for every point: it rejects, or raises on, everything else. *)
Theorem in_violation_full_accepts_exactly (points : list Point) (radius : R)
    (arena_size : Z) :
  Trials.in_violation_full points radius arena_size = Ok false
  <-> (forall (i j : nat) p q,
          i <> j -> points !! i = Some p -> points !! j = Some q ->
          centre p <> centre q /\ sqdist p q >= 4 * radius ^ 2)
      /\ (forall p, p ∈ points -> px p ^ 2 + py p ^ 2 >= radius ^ 2)
      /\ (forall p, p ∈ points ->
            Trials.is_blocked p points radius = Ok false).
Proof.
  split.
  - intros Hacc.
    destruct (in_violation_full_false _ _ _ Hacc)
      as (Hdeg & Hself & Horigin & Hvis).
    split; [|split].
    + intros i j p q Hij Hi Hj. split.
      * by apply (degenerate_false points Hdeg i j).
      * by apply (self_intersect_false points radius Hself i j).
    + intros p Hp. pose proof (existsb_false_elem _ _ p Horigin Hp) as Hb.
      apply bool_decide_eq_false in Hb. lra.
    + by apply any_raising_false.
  - intros (Hpairs & Horigin & Hvis).
    destruct (pairs_apart points radius Hpairs) as [Hdeg Hself].
    unfold Trials.in_violation_full. rewrite Hdeg, Hself.
    destruct (Trials.intersect_origin points radius) eqn:Hin.
    + apply existsb_true_elem in Hin as (p & Hp & Hb).
      apply bool_decide_eq_true in Hb. specialize (Horigin p Hp). lra.
    + rewrite (any_raising_total _ (fun _ => false)) by done.
      by rewrite existsb_never.
Qed.

Lemma in_violation_full_accepts_exactly_witness :
  Trials.is_blocked far [far; near] 200 = Ok false.
Proof.
  apply (in_violation_full_accepts_exactly [far; near] 200 800).
  - exact far_near_accepted.
  - left.
Defined.

(** ** The quality metric of the constructive search *)





